(** * ecowitt2mqtt: the payload translation engine of [ecowitt2mqtt/data.py]

    A shallow embedding of [de_unit_key], [get_data_type] and the
    [DataProcessor] class, and the properties of them that the design
    document states.

    Python values are modelled as follows.
    - [str] is [string]; the suffixes and identifiers the code tests for
      are ASCII, so tests on bytes and on characters agree.
    - A [dict] is an association list in insertion order whose keys are
      pairwise distinct: assignment to a present key replaces the value in
      place, assignment to a new key appends.
    - [self] is a record threaded through a state monad whose computations
      may raise ([KeyError] is the only exception the module can raise by
      itself); what a method did to [self] before it raised stays done.
    - The calculators of [ecowitt2mqtt.util] are not part of the module;
      they are the fields of the class [Calculators]: a statement proved
      for an arbitrary instance holds for all calculators. *)

From Stdlib Require Import String Ascii List Bool Arith NArith ZArith QArith Lia.
From Stdlib Require Import Permutation.
Import ListNotations.
Close Scope Q_scope.
Local Open Scope list_scope.
Local Open Scope string_scope.

(** ** Strings *)

(** [s.endswith(suffix)]. *)
Fixpoint endswith (s suffix : string) : bool :=
  String.eqb s suffix ||
  match s with
  | EmptyString => false
  | String _ s' => endswith s' suffix
  end.

(** [s[:-n]] for [n >= 1]. *)
Definition drop_last (n : nat) (s : string) : string :=
  substring 0 (String.length s - n) s.

(** [k in s] on strings: [k] occurs in [s] as a contiguous run. *)
Fixpoint str_in (k s : string) : bool :=
  String.prefix k s ||
  match s with
  | EmptyString => false
  | String _ s' => str_in k s'
  end.

(** The propositions the boolean tests decide. *)
Definition Suffix (suffix s : string) : Prop := exists b, s = b ++ suffix.
Definition Substring (k s : string) : Prop := exists a b, s = a ++ k ++ b.

(** ** Dictionaries *)

Definition dict (V : Type) : Type := list (string * V).

Section Dict.
Context {V : Type}.

(** [d.get(k)]: [None] when the key is absent. *)
Fixpoint dict_get (k : string) (d : dict V) : option V :=
  match d with
  | [] => None
  | (k', v) :: d' => if String.eqb k k' then Some v else dict_get k d'
  end.

Definition dict_keys (d : dict V) : list string := map fst d.

(** [k in d]. *)
Definition dict_mem (k : string) (d : dict V) : bool :=
  existsb (String.eqb k) (dict_keys d).

(** [d[k] = v]. *)
Fixpoint dict_set (k : string) (v : V) (d : dict V) : dict V :=
  match d with
  | [] => [(k, v)]
  | (k', v') :: d' =>
      if String.eqb k k' then (k', v) :: d' else (k', v') :: dict_set k v d'
  end.

(** [{**d1, **d2}]. *)
Definition dict_merge (d1 d2 : dict V) : dict V :=
  fold_left (fun acc kv => dict_set (fst kv) (snd kv) acc) d2 d1.

End Dict.

(** [k in l] on a list of strings. *)
Definition list_mem (k : string) (l : list string) : bool :=
  existsb (String.eqb k) l.

(** ** Constants of [ecowitt2mqtt.const] *)

(** Modelled from the spec: [ecowitt2mqtt/const.py] is not among the
    sources, only the names imported from it are.  Each data point has
    the value its name spells, which is what the design document's
    scenarios need: the derived metrics are emitted as [dewpoint],
    [feelslike], [heatindex] and [windchill]; [tempf], [windspeedmph] and
    [battery1] resolve through the temperature, wind and battery families
    and [humidity] resolves to nothing. *)
Definition DATA_POINT_DEWPOINT : string := "dewpoint".
Definition DATA_POINT_FEELSLIKE : string := "feelslike".
Definition DATA_POINT_GLOB_BAROM : string := "barom".
Definition DATA_POINT_GLOB_BATT : string := "batt".
Definition DATA_POINT_GLOB_RAIN : string := "rain".
Definition DATA_POINT_GLOB_TEMP : string := "temp".
Definition DATA_POINT_GLOB_WIND : string := "wind".
Definition DATA_POINT_HEATINDEX : string := "heatindex".
Definition DATA_POINT_HUMIDITY : string := "humidity".
Definition DATA_POINT_TEMPF : string := "tempf".
Definition DATA_POINT_WINDCHILL : string := "windchill".
Definition DATA_POINT_WINDSPEEDMPH : string := "windspeedmph".
Definition UNIT_SYSTEM_IMPERIAL : string := "imperial".

(** ** Module-level tables of [data.py] *)

Definition DEFAULT_KEYS_TO_IGNORE : list string :=
  ["PASSKEY"; "dateutc"; "freq"; "model"; "stationtype"].
Definition DEFAULT_UNIQUE_ID : string := "default".

(** The functions imported from [ecowitt2mqtt.util], by name. *)
Inductive calculator : Type :=
  | calculate_dew_point
  | calculate_feels_like
  | calculate_pressure
  | calculate_binary_battery
  | calculate_rain_volume
  | calculate_temperature
  | calculate_wind_chill
  | calculate_wind_speed
  | calculate_heat_index.

Definition CALCULATOR_FUNCTION_MAP : dict calculator :=
  [ (DATA_POINT_DEWPOINT, calculate_dew_point);
    (DATA_POINT_FEELSLIKE, calculate_feels_like);
    (DATA_POINT_GLOB_BAROM, calculate_pressure);
    (DATA_POINT_GLOB_BATT, calculate_binary_battery);
    (DATA_POINT_GLOB_RAIN, calculate_rain_volume);
    (DATA_POINT_GLOB_TEMP, calculate_temperature);
    (DATA_POINT_GLOB_WIND, calculate_wind_speed);
    (DATA_POINT_HEATINDEX, calculate_heat_index);
    (DATA_POINT_WINDCHILL, calculate_wind_chill) ].

Definition DEW_POINT_KEYS : list string :=
  [DATA_POINT_TEMPF; DATA_POINT_HUMIDITY].
Definition FEELS_LIKE_KEYS : list string :=
  [DATA_POINT_TEMPF; DATA_POINT_HUMIDITY; DATA_POINT_WINDSPEEDMPH].
Definition HEAT_INDEX_KEYS : list string :=
  [DATA_POINT_TEMPF; DATA_POINT_HUMIDITY].
Definition WIND_CHILL_KEYS : list string :=
  [DATA_POINT_TEMPF; DATA_POINT_WINDSPEEDMPH].

(** ** [de_unit_key] *)

Definition de_unit_key (key : string) : string :=
  if endswith key "f" then drop_last 1 key
  else if endswith key "in" then drop_last 2 key
  else if endswith key "mph" then drop_last 3 key
  else key.

(** The key normalizer as the design document words it: the longest
    suffix is tried first. *)
Definition de_unit_key_longest_first (key : string) : string :=
  if endswith key "mph" then drop_last 3 key
  else if endswith key "in" then drop_last 2 key
  else if endswith key "f" then drop_last 1 key
  else key.

(** ** [get_data_type] *)

Definition get_data_type (key : string) : option string :=
  if dict_mem key CALCULATOR_FUNCTION_MAP then Some key
  else
    let matches :=
      filter (fun k => str_in k key) (dict_keys CALCULATOR_FUNCTION_MAP) in
    match matches with
    | k :: _ => Some k
    | [] => None
    end.

(** The derived metrics and their inputs, in the order the second loop of
    [generate_data] lists them. *)
Definition DERIVED_METRICS : list (string * list string) :=
  [ (DATA_POINT_DEWPOINT, DEW_POINT_KEYS);
    (DATA_POINT_FEELSLIKE, FEELS_LIKE_KEYS);
    (DATA_POINT_HEATINDEX, HEAT_INDEX_KEYS);
    (DATA_POINT_WINDCHILL, WIND_CHILL_KEYS) ].

(** ** The collaborators *)

(** What the module takes from the Python runtime: [float], [float(s)] on
    a string ([None] is [ValueError]), and whatever else a calculator may
    return. *)
Class Runtime : Type := {
  float : Type;
  float_of_str : string -> option float;
  object : Type
}.

(** A value of the translated payload ([Any] in the annotations). *)
Inductive Any `{Runtime} : Type :=
  | VStr (s : string)
  | VFloat (x : float)
  | VObject (o : object).

(** What the module takes from [ecowitt2mqtt.util]: for each function the
    names in [inspect.signature(func).parameters], and the result of a
    call with positional arguments [args] and keyword arguments [kwargs]. *)
Class Calculators `{Runtime} : Type := {
  signature_parameters : calculator -> list string;
  call : calculator -> dict string -> list Any -> Any
}.

(** ** The engine *)

Section Engine.
Context {R : Runtime} {C : Calculators}.

(** [functools.partial(func, **keywords)]; [ident] tells two such objects
    apart, as [id] does. *)
Record partial : Type := {
  ident : nat;
  func : calculator;
  keywords : dict string
}.

(** What a session did, oldest first: the signatures it inspected and the
    calculators it called. *)
Inductive event : Type :=
  | Inspect (f : calculator)
  | Call (p : partial) (args : list Any).

(** [self].  [events] and [allocated] (the number of [partial] objects
    made so far) are bookkeeping of the model. *)
Record DataProcessor : Type := {
  _calculator_funcs : dict partial;
  _input_unit_system : string;
  _output_unit_system : string;
  _payload : dict string;
  unique_id : string;
  events : list event;
  allocated : nat
}.

Inductive exn : Type :=
  | KeyError (k : string).

Inductive result (A : Type) : Type :=
  | Ok (a : A) (self : DataProcessor)
  | Raise (e : exn) (self : DataProcessor).
Arguments Ok {A} a self.
Arguments Raise {A} e self.

(** The value a call returned, if it did not raise. *)
Definition returned {A} (r : result A) : option A :=
  match r with
  | Ok a _ => Some a
  | Raise _ _ => None
  end.

(** The exception a call raised, if it raised. *)
Definition raised {A} (r : result A) : option exn :=
  match r with
  | Ok _ _ => None
  | Raise e _ => Some e
  end.

(** [self] after a call, whether it returned or raised. *)
Definition state_of {A} (r : result A) : DataProcessor :=
  match r with
  | Ok _ self => self
  | Raise _ self => self
  end.

(** Whether a call returned. *)
Definition returns {A} (r : result A) : bool :=
  match r with
  | Ok _ _ => true
  | Raise _ _ => false
  end.

(** Methods: they read and update [self] and may raise. *)
Definition M (A : Type) : Type := DataProcessor -> result A.

Definition ret {A} (a : A) : M A := fun self => Ok a self.

Definition bind {A B} (m : M A) (k : A -> M B) : M B :=
  fun self =>
    match m self with
    | Ok a self' => k a self'
    | Raise e self' => Raise e self'
    end.

Definition raise {A} (e : exn) : M A := fun self => Raise e self.

Definition gets {A} (field : DataProcessor -> A) : M A :=
  fun self => Ok (field self) self.

Notation "x <- m ;; k" := (bind m (fun x => k))
  (at level 61, m at next level, right associativity).
Notation "m ;;; k" := (bind m (fun _ => k))
  (at level 61, right associativity).

(** [d[k]]. *)
Definition getitem {V} (k : string) (d : dict V) : M V :=
  match dict_get k d with
  | Some v => ret v
  | None => raise (KeyError k)
  end.

(** [inspect.signature(func).parameters]. *)
Definition inspect_signature (f : calculator) : M (list string) :=
  fun self =>
    Ok (signature_parameters f)
       {| _calculator_funcs := _calculator_funcs self;
          _input_unit_system := _input_unit_system self;
          _output_unit_system := _output_unit_system self;
          _payload := _payload self;
          unique_id := unique_id self;
          events := (events self ++ [Inspect f])%list;
          allocated := allocated self |}.

(** [partial(func, **kwargs)]: a new object. *)
Definition new_partial (f : calculator) (kwargs : dict string) : M partial :=
  fun self =>
    Ok {| ident := allocated self; func := f; keywords := kwargs |}
       {| _calculator_funcs := _calculator_funcs self;
          _input_unit_system := _input_unit_system self;
          _output_unit_system := _output_unit_system self;
          _payload := _payload self;
          unique_id := unique_id self;
          events := events self;
          allocated := S (allocated self) |}.

(** [self._calculator_funcs[data_type] = p]. *)
Definition set_calculator_func (data_type : string) (p : partial) : M unit :=
  fun self =>
    Ok tt
       {| _calculator_funcs := dict_set data_type p (_calculator_funcs self);
          _input_unit_system := _input_unit_system self;
          _output_unit_system := _output_unit_system self;
          _payload := _payload self;
          unique_id := unique_id self;
          events := events self;
          allocated := allocated self |}.

(** A call of the partial object [p] with positional arguments [args]. *)
Definition invoke (p : partial) (args : list Any) : M Any :=
  fun self =>
    Ok (call (func p) (keywords p) args)
       {| _calculator_funcs := _calculator_funcs self;
          _input_unit_system := _input_unit_system self;
          _output_unit_system := _output_unit_system self;
          _payload := _payload self;
          unique_id := unique_id self;
          events := (events self ++ [Call p args])%list;
          allocated := allocated self |}.

(** A [for] loop over [l] that updates [acc]. *)
Fixpoint for_each {A S} (body : S -> A -> M S) (acc : S) (l : list A) : M S :=
  match l with
  | [] => ret acc
  | x :: l' => acc' <- body acc x ;; for_each body acc' l'
  end.

(** A list comprehension whose element expression may raise. *)
Fixpoint comprehension {A B} (f : A -> M B) (l : list A) : M (list B) :=
  match l with
  | [] => ret []
  | x :: l' => y <- f x ;; ys <- comprehension f l' ;; ret (y :: ys)
  end.

(** [DataProcessor(payload, input_unit_system=..., output_unit_system=...)].
    The [device] attribute is left out: no method of the class reads it. *)
Definition init (payload : dict string)
    (input_unit_system output_unit_system : string) : DataProcessor :=
  {| _calculator_funcs := [];
     _input_unit_system := input_unit_system;
     _output_unit_system := output_unit_system;
     _payload := payload;
     unique_id :=
       match dict_get "PASSKEY" payload with
       | Some v => v
       | None => DEFAULT_UNIQUE_ID
       end;
     events := [];
     allocated := 0 |}.

(** The keyword arguments [_get_calculator_func] binds for [f]. *)
Definition bound_keywords (f : calculator)
    (input_unit_system output_unit_system : string) : dict string :=
  let func_params := signature_parameters f in
  let kwargs := [] in
  let kwargs :=
    if list_mem "input_unit_system" func_params
    then dict_set "input_unit_system" input_unit_system kwargs
    else kwargs in
  let kwargs :=
    if list_mem "output_unit_system" func_params
    then dict_set "output_unit_system" output_unit_system kwargs
    else kwargs in
  kwargs.

Definition _get_calculator_func (key : string) : M (option partial) :=
  match get_data_type key with
  | None => ret None
  | Some data_type =>
      if String.eqb data_type "" then ret None
      else
        funcs <- gets _calculator_funcs ;;
        if dict_mem data_type funcs then
          p <- getitem data_type funcs ;;
          ret (Some p)
        else
          f <- getitem data_type CALCULATOR_FUNCTION_MAP ;;
          func_params <- inspect_signature f ;;
          input_unit_system <- gets _input_unit_system ;;
          output_unit_system <- gets _output_unit_system ;;
          let kwargs := [] in
          let kwargs :=
            if list_mem "input_unit_system" func_params
            then dict_set "input_unit_system" input_unit_system kwargs
            else kwargs in
          let kwargs :=
            if list_mem "output_unit_system" func_params
            then dict_set "output_unit_system" output_unit_system kwargs
            else kwargs in
          p <- new_partial f kwargs ;;
          set_calculator_func data_type p ;;;
          funcs <- gets _calculator_funcs ;;
          p <- getitem data_type funcs ;;
          ret (Some p)
  end.

(** [float(value)], and [value] itself on [ValueError]. *)
Definition coerce (value : string) : Any :=
  match float_of_str value with
  | Some x => VFloat x
  | None => VStr value
  end.

(** The body of the first loop of [generate_data]. *)
Definition translate_item (translated_data : dict Any)
    (item : string * string) : M (dict Any) :=
  let '(target_key, value) := item in
  if list_mem target_key DEFAULT_KEYS_TO_IGNORE then ret translated_data
  else
    let value := coerce value in
    calculator <- _get_calculator_func target_key ;;
    match calculator with
    | Some calculator =>
        output <- invoke calculator [value] ;;
        let target_key := de_unit_key target_key in
        ret (dict_set target_key output translated_data)
    | None => ret (dict_set target_key value translated_data)
    end.

(** The body of the second loop. *)
Definition derive_item (translated_data calculated_data : dict Any)
    (item : string * list string) : M (dict Any) :=
  let '(target_key, input_keys) := item in
  if negb (forallb (fun k => dict_mem k translated_data) input_keys)
  then ret calculated_data
  else
    calculator <- _get_calculator_func target_key ;;
    match calculator with
    | Some calculator =>
        payload <- gets _payload ;;
        args <- comprehension (fun k => getitem k payload) input_keys ;;
        output <- invoke calculator (map VStr args) ;;
        ret (dict_set target_key output calculated_data)
    | None => ret calculated_data
    end.

(** The first loop: the translated mapping. *)
Definition translate : M (dict Any) :=
  payload <- gets _payload ;;
  for_each translate_item [] payload.

(** The second loop: the derived results. *)
Definition derive (translated_data : dict Any) : M (dict Any) :=
  for_each (derive_item translated_data) [] DERIVED_METRICS.

Definition generate_data : M (dict Any) :=
  translated_data <- translate ;;
  calculated_data <- derive translated_data ;;
  ret (dict_merge translated_data calculated_data).

End Engine.

Arguments Ok {_ A} a self.
Arguments Raise {_ A} e self.

(** [DataProcessor(payload, ...).generate_data()]. *)
Definition run {R : Runtime} {C : Calculators} (payload : dict string)
    (input_unit_system output_unit_system : string) : result (dict Any) :=
  generate_data (init payload input_unit_system output_unit_system).

(** ** A concrete runtime, for closed examples *)

Module Stub.

Definition digit (c : ascii) : option N :=
  let n := N_of_ascii c in
  if ((48 <=? n) && (n <=? 57))%N then Some (n - 48)%N else None.

(** The number a run of decimal digits denotes, after the digits [acc]. *)
Fixpoint digits (s : string) (acc : N) : option N :=
  match s with
  | EmptyString => Some acc
  | String c s' =>
      match digit c with
      | Some d => digits s' (10 * acc + d)%N
      | None => None
      end
  end.

(** [s] cut at its first dot. *)
Fixpoint split_dot (s : string) : string * option string :=
  match s with
  | EmptyString => (EmptyString, None)
  | String c s' =>
      if Ascii.eqb c "."%char then (EmptyString, Some s')
      else let (a, b) := split_dot s' in (String c a, b)
  end.

(** Unsigned decimal literals ([54], [77.4]) read as rationals in lowest
    terms; every other string is refused. *)
Definition decimal (s : string) : option Q :=
  let (i, f) := split_dot s in
  match i with
  | EmptyString => None
  | _ =>
      match digits (i ++ match f with Some f => f | None => EmptyString end) 0 with
      | Some n =>
          let scale := match f with Some f => String.length f | None => 0 end in
          Some (Qred (Qmake (Z.of_N n) (Pos.of_nat (10 ^ scale))))
      | None => None
      end
  end.

#[local] Instance runtime : Runtime :=
  {| float := Q; float_of_str := decimal; object := Empty_set |}.

(** Every calculator returns its first argument; all but the battery one
    take both unit systems. *)
#[local] Instance calculators : Calculators :=
  {| signature_parameters := fun f =>
       match f with
       | calculate_binary_battery => ["value"]
       | _ => ["value"; "input_unit_system"; "output_unit_system"]
       end;
     call := fun _ _ args =>
       match args with
       | a :: _ => a
       | [] => VStr EmptyString
       end |}.

End Stub.

(** ** What the design document says of the resolver *)

(** The registered identifiers, in declaration order. *)
Definition registry : list string := dict_keys CALCULATOR_FUNCTION_MAP.

(** The resolver's contract: the key itself when it is registered;
    otherwise the first registered identifier, in declaration order, that
    occurs in the key; otherwise no match. *)
Inductive resolves (key : string) : option string -> Prop :=
  | resolves_exact :
      In key registry -> resolves key (Some key)
  | resolves_substring (before : list string) (k : string) (after : list string) :
      ~ In key registry ->
      registry = (before ++ k :: after)%list ->
      Substring k key ->
      (forall k', In k' before -> ~ Substring k' key) ->
      resolves key (Some k)
  | resolves_none :
      (forall k, In k registry -> ~ Substring k key) ->
      resolves key None.

(** The last character of a string. *)
Fixpoint last_char (s : string) : option ascii :=
  match s with
  | EmptyString => None
  | String c EmptyString => Some c
  | String _ s' => last_char s'
  end.

(** ** Vocabulary for the statements about the engine *)

(** The identifier each calculator is registered under. *)
Definition registered_name (f : calculator) : string :=
  match f with
  | calculate_dew_point => DATA_POINT_DEWPOINT
  | calculate_feels_like => DATA_POINT_FEELSLIKE
  | calculate_pressure => DATA_POINT_GLOB_BAROM
  | calculate_binary_battery => DATA_POINT_GLOB_BATT
  | calculate_rain_volume => DATA_POINT_GLOB_RAIN
  | calculate_temperature => DATA_POINT_GLOB_TEMP
  | calculate_wind_speed => DATA_POINT_GLOB_WIND
  | calculate_heat_index => DATA_POINT_HEATINDEX
  | calculate_wind_chill => DATA_POINT_WINDCHILL
  end.

(** [key in DEFAULT_KEYS_TO_IGNORE]. *)
Definition ignored (key : string) : bool :=
  list_mem key DEFAULT_KEYS_TO_IGNORE.

(** The raw keys the first loop does not skip, in payload order. *)
Definition kept (payload : dict string) : list string :=
  filter (fun k => negb (ignored k)) (dict_keys payload).

(** The key under which the first loop stores the entry of a raw key. *)
Definition translated_key (key : string) : string :=
  match get_data_type key with
  | Some _ => de_unit_key key
  | None => key
  end.

Section Vocabulary.
Context {R : Runtime} {C : Calculators}.

(** The test that opens the second loop's body: every input key is a key
    of the translated mapping. *)
Definition gate (translated_data : dict Any) (input_keys : list string) : bool :=
  forallb (fun k => dict_mem k translated_data) input_keys.

(** The value the first loop stores for a raw entry. *)
Definition translated_value (input_unit_system output_unit_system : string)
    (key value : string) : Any :=
  match get_data_type key with
  | Some data_type =>
      match dict_get data_type CALCULATOR_FUNCTION_MAP with
      | Some f =>
          call f (bound_keywords f input_unit_system output_unit_system)
            [coerce value]
      | None => coerce value
      end
  | None => coerce value
  end.

(** The translated mapping, as a function of the payload. *)
Definition translated_from (input_unit_system output_unit_system : string)
    (acc : dict Any) (payload : dict string) : dict Any :=
  fold_left
    (fun t item =>
       if ignored (fst item) then t
       else dict_set (translated_key (fst item))
              (translated_value input_unit_system output_unit_system
                 (fst item) (snd item)) t)
    payload acc.

(** The partial object a first request for [f] makes. *)
Definition fresh_partial (self : DataProcessor) (f : calculator) : partial :=
  {| ident := allocated self;
     func := f;
     keywords :=
       bound_keywords f (_input_unit_system self) (_output_unit_system self) |}.

(** [self] after a first request for [data_type], whose calculator is [f]. *)
Definition with_binding (self : DataProcessor) (data_type : string)
    (f : calculator) : DataProcessor :=
  {| _calculator_funcs :=
       dict_set data_type (fresh_partial self f) (_calculator_funcs self);
     _input_unit_system := _input_unit_system self;
     _output_unit_system := _output_unit_system self;
     _payload := _payload self;
     unique_id := unique_id self;
     events := (events self ++ [Inspect f])%list;
     allocated := S (allocated self) |}.

(** [self] after a call of [p] on [args]. *)
Definition with_call (self : DataProcessor) (p : partial) (args : list Any)
    : DataProcessor :=
  {| _calculator_funcs := _calculator_funcs self;
     _input_unit_system := _input_unit_system self;
     _output_unit_system := _output_unit_system self;
     _payload := _payload self;
     unique_id := unique_id self;
     events := (events self ++ [Call p args])%list;
     allocated := allocated self |}.

(** The calculators whose signatures were inspected, oldest first. *)
Definition inspections (l : list event) : list calculator :=
  flat_map (fun e => match e with Inspect f => [f] | Call _ _ => [] end) l.

(** The calculator calls made, oldest first: function, keyword arguments
    and positional arguments. *)
Definition calls (l : list event) : list (calculator * dict string * list Any) :=
  flat_map
    (fun e =>
       match e with
       | Inspect _ => []
       | Call p args => [(func p, keywords p, args)]
       end) l.

(** One thing a method does to [self] between two requests for a
    calculator: another request, or a call of a calculator. *)
Inductive step : DataProcessor -> DataProcessor -> Prop :=
  | step_request (key : string) (self : DataProcessor)
      (r : option partial) (self' : DataProcessor) :
      _get_calculator_func key self = Ok r self' -> step self self'
  | step_invoke (p : partial) (args : list Any) (self : DataProcessor)
      (v : Any) (self' : DataProcessor) :
      invoke p args self = Ok v self' -> step self self'.

(** A session: [self] as made by the constructor, then any number of
    steps. *)
Inductive session : DataProcessor -> Prop :=
  | session_init (payload : dict string) (ius ous : string) :
      session (init payload ius ous)
  | session_step (self self' : DataProcessor) :
      session self -> step self self' -> session self'.

(** Any number of steps, one after the other. *)
Inductive steps : DataProcessor -> DataProcessor -> Prop :=
  | steps_refl (self : DataProcessor) : steps self self
  | steps_step (self self' self'' : DataProcessor) :
      steps self self' -> step self' self'' -> steps self self''.

(** The cache holds, for each data type it knows, the registered
    calculator bound to the session's unit systems. *)
Definition cache_ok (self : DataProcessor) : Prop :=
  forall data_type p,
    dict_get data_type (_calculator_funcs self) = Some p ->
    exists f,
      dict_get data_type CALCULATOR_FUNCTION_MAP = Some f /\
      func p = f /\
      keywords p =
        bound_keywords f (_input_unit_system self) (_output_unit_system self).

(** What holds of the cache throughout a session: its data types are
    distinct, each is bound to its registered calculator and the unit
    systems of the session by an object made earlier, and the signatures
    inspected so far are those of the bound calculators, in the order of
    binding. *)
Definition session_inv (self : DataProcessor) : Prop :=
  NoDup (dict_keys (_calculator_funcs self)) /\
  inspections (events self) =
    map (fun entry => func (snd entry)) (_calculator_funcs self) /\
  Forall
    (fun entry =>
       dict_get (fst entry) CALCULATOR_FUNCTION_MAP = Some (func (snd entry)) /\
       keywords (snd entry) =
         bound_keywords (func (snd entry)) (_input_unit_system self)
           (_output_unit_system self) /\
       ident (snd entry) < allocated self)
    (_calculator_funcs self).

(** The attributes no method assigns. *)
Definition same_config (self self' : DataProcessor) : Prop :=
  _input_unit_system self' = _input_unit_system self /\
  _output_unit_system self' = _output_unit_system self /\
  _payload self' = _payload self /\
  unique_id self' = unique_id self.

(** No binding of the cache is replaced or removed. *)
Definition cache_kept (self self' : DataProcessor) : Prop :=
  forall data_type p,
    dict_get data_type (_calculator_funcs self) = Some p ->
    dict_get data_type (_calculator_funcs self') = Some p.

(** The raw values [raws] are those of the keys [input_keys], in order. *)
Definition raw_values (payload : dict string) (input_keys raws : list string)
    : Prop :=
  Forall2 (fun k raw => dict_get k payload = Some raw) input_keys raws.

(** The value of a derived metric: its registered calculator, bound to the
    unit systems, on the raw payload values of its input keys, in order. *)
Definition derived_value (payload : dict string) (ius ous : string)
    (item : string * list string) (v : Any) : Prop :=
  exists f raws,
    dict_get (fst item) CALCULATOR_FUNCTION_MAP = Some f /\
    raw_values payload (snd item) raws /\
    v = call f (bound_keywords f ius ous) (map VStr raws).

(** The call the second loop makes for a derived metric. *)
Definition derived_call (payload : dict string) (ius ous : string)
    (item : string * list string)
    (c : calculator * dict string * list Any) : Prop :=
  exists f raws,
    dict_get (fst item) CALCULATOR_FUNCTION_MAP = Some f /\
    raw_values payload (snd item) raws /\
    c = (f, bound_keywords f ius ous, map VStr raws).

End Vocabulary.

(** ** The outcome of a run as a function of the payload *)

(** The keys [keys] entered one after the other into the key list [acc] of
    a dictionary: a key that is present stays where it is, a new key goes
    to the end. *)
Definition append_new (keys acc : list string) : list string :=
  fold_left (fun acc k => if list_mem k acc then acc else (acc ++ [k])%list)
    keys acc.

Section Outcome.
Context {R : Runtime} {C : Calculators}.

(** What a call came to: the value it returned or the exception it
    raised. *)
Definition outcome {A} (r : result A) : exn + A :=
  match r with
  | Ok a _ => inr a
  | Raise e _ => inl e
  end.

(** The list comprehension of the second loop: the raw values of the
    input keys, or [KeyError] for the first key the payload lacks. *)
Fixpoint lookup_all (payload : dict string) (input_keys : list string)
    : exn + list string :=
  match input_keys with
  | [] => inr []
  | k :: rest =>
      match dict_get k payload with
      | None => inl (KeyError k)
      | Some raw =>
          match lookup_all payload rest with
          | inl e => inl e
          | inr raws => inr (raw :: raws)
          end
      end
  end.

(** One round of the second loop for a registered target. *)
Definition derive_step (payload : dict string) (ius ous : string)
    (t calc : dict Any) (item : string * list string) : exn + dict Any :=
  if gate t (snd item) then
    match dict_get (fst item) CALCULATOR_FUNCTION_MAP with
    | Some f =>
        match lookup_all payload (snd item) with
        | inl e => inl e
        | inr raws =>
            inr (dict_set (fst item)
                   (call f (bound_keywords f ius ous) (map VStr raws)) calc)
        end
    | None => inr calc
    end
  else inr calc.

(** The second loop. *)
Fixpoint derived_from (payload : dict string) (ius ous : string)
    (t : dict Any) (specs : list (string * list string)) (calc : dict Any)
    : exn + dict Any :=
  match specs with
  | [] => inr calc
  | item :: rest =>
      match derive_step payload ius ous t calc item with
      | inl e => inl e
      | inr calc' => derived_from payload ius ous t rest calc'
      end
  end.

(** [generate_data]: the translated mapping, then the derived results
    merged into it. *)
Definition output_of (payload : dict string) (ius ous : string)
    : exn + dict Any :=
  let t := translated_from ius ous [] payload in
  match derived_from payload ius ous t DERIVED_METRICS [] with
  | inl e => inl e
  | inr calc => inr (dict_merge t calc)
  end.

(** The calculator calls of the first loop: one for each entry whose key
    is not ignored and resolves, in payload order, on the coerced value. *)
Definition translate_calls (ius ous : string) (payload : dict string)
    : list (calculator * dict string * list Any) :=
  flat_map
    (fun item =>
       if ignored (fst item) then []
       else
         match get_data_type (fst item) with
         | Some data_type =>
             match dict_get data_type CALCULATOR_FUNCTION_MAP with
             | Some f => [(f, bound_keywords f ius ous, [coerce (snd item)])]
             | None => []
             end
         | None => []
         end)
    payload.

End Outcome.

(** * Properties *)

(** ** Strings *)

Lemma append_empty_r (s : string) : s ++ "" = s.
Proof. induction s as [|c s IH]; simpl; [reflexivity | now rewrite IH]. Qed.

Lemma length_append (a b : string) :
  String.length (a ++ b) = String.length a + String.length b.
Proof. induction a as [|x a IH]; simpl; [reflexivity | now rewrite IH]. Qed.

Lemma endswith_Suffix (s suffix : string) :
  endswith s suffix = true <-> Suffix suffix s.
Proof.
  unfold Suffix. induction s as [|c s IH]; cbn [endswith].
  - rewrite orb_false_r, String.eqb_eq. split.
    + intros <-. now exists "".
    + intros [b Hb]. destruct b; simpl in Hb; [assumption | discriminate].
  - rewrite orb_true_iff, String.eqb_eq, IH. split.
    + intros [<- | [b ->]].
      * now exists "".
      * now exists (String c b).
    + intros [[|c' b] Hb]; simpl in Hb.
      * now left.
      * injection Hb as <- ->. right. now exists b.
Qed.

Lemma prefix_spec (k s : string) :
  String.prefix k s = true <-> exists b, s = k ++ b.
Proof.
  revert k. induction s as [|c' s IH]; intros [|c k]; simpl.
  - split; [intros _; now exists "" | reflexivity].
  - split; [discriminate | intros [b Hb]; discriminate].
  - split; [intros _; now exists (String c' s) | reflexivity].
  - destruct (Ascii.ascii_dec c c') as [<- | Hne].
    + rewrite IH. split; intros [b Hb]; exists b; congruence.
    + split; [discriminate | intros [b Hb]; congruence].
Qed.

Lemma str_in_Substring (k s : string) :
  str_in k s = true <-> Substring k s.
Proof.
  unfold Substring. induction s as [|c s IH]; cbn [str_in].
  - rewrite orb_false_r, prefix_spec. split.
    + intros [b Hb]. now exists "", b.
    + intros [[|x a] [b Hb]]; simpl in Hb; [now exists b | discriminate].
  - rewrite orb_true_iff, prefix_spec, IH. split.
    + intros [[b Hb] | [a [b ->]]].
      * now exists "", b.
      * now exists (String c a), b.
    + intros [[|x a] [b Hb]]; simpl in Hb.
      * left. now exists b.
      * injection Hb as <- ->. right. now exists a, b.
Qed.

Lemma Substring_refl (s : string) : Substring s s.
Proof. exists "", "". simpl. now rewrite append_empty_r. Qed.

Lemma substring_0_app (b s : string) :
  substring 0 (String.length b) (b ++ s) = b.
Proof.
  induction b as [|c b IH]; simpl.
  - now destruct s.
  - now rewrite IH.
Qed.

Lemma drop_last_app (b suffix : string) :
  drop_last (String.length suffix) (b ++ suffix) = b.
Proof.
  unfold drop_last. rewrite length_append.
  replace (String.length b + String.length suffix - String.length suffix)
    with (String.length b) by lia.
  apply substring_0_app.
Qed.

Lemma last_char_app (b : string) (c : ascii) (s : string) :
  last_char (b ++ String c s) = last_char (String c s).
Proof.
  induction b as [|x b IH]; [reflexivity|].
  change (String x b ++ String c s) with (String x (b ++ String c s)).
  destruct (b ++ String c s) eqn:E.
  - destruct b; discriminate.
  - rewrite <- IH. reflexivity.
Qed.

Lemma Suffix_last_char (suffix s : string) :
  Suffix suffix s -> suffix <> "" -> last_char s = last_char suffix.
Proof.
  intros [b ->] Hne. destruct suffix as [|c suffix]; [congruence|].
  apply last_char_app.
Qed.

Lemma endswith_exclusive (s suffix other : string) :
  Suffix suffix s -> suffix <> "" -> other <> "" ->
  last_char suffix <> last_char other ->
  endswith s other = false.
Proof.
  intros Hs Hne Hne' Hlast.
  destruct (endswith s other) eqn:E; [|reflexivity].
  apply endswith_Suffix in E.
  apply Suffix_last_char in Hs; [|assumption].
  apply Suffix_last_char in E; [|assumption].
  congruence.
Qed.

(** ** [de_unit_key] *)

Lemma de_unit_key_f (b : string) : de_unit_key (b ++ "f") = b.
Proof.
  unfold de_unit_key.
  assert (E : endswith (b ++ "f") "f" = true)
    by (apply endswith_Suffix; now exists b).
  rewrite E. apply (drop_last_app b "f").
Qed.

Lemma de_unit_key_in (b : string) : de_unit_key (b ++ "in") = b.
Proof.
  unfold de_unit_key.
  assert (S : Suffix "in" (b ++ "in")) by now exists b.
  rewrite (endswith_exclusive _ "in" "f" S) by (simpl; congruence).
  apply endswith_Suffix in S. rewrite S. apply (drop_last_app b "in").
Qed.

Lemma de_unit_key_mph (b : string) : de_unit_key (b ++ "mph") = b.
Proof.
  unfold de_unit_key.
  assert (S : Suffix "mph" (b ++ "mph")) by now exists b.
  rewrite (endswith_exclusive _ "mph" "f" S) by (simpl; congruence).
  rewrite (endswith_exclusive _ "mph" "in" S) by (simpl; congruence).
  apply endswith_Suffix in S. rewrite S. apply (drop_last_app b "mph").
Qed.

Lemma de_unit_key_other (key : string) :
  ~ Suffix "f" key -> ~ Suffix "in" key -> ~ Suffix "mph" key ->
  de_unit_key key = key.
Proof.
  intros Hf Hin Hmph. unfold de_unit_key.
  rewrite <- endswith_Suffix in Hf, Hin, Hmph.
  apply not_true_is_false in Hf, Hin, Hmph.
  now rewrite Hf, Hin, Hmph.
Qed.

(** The normalized key is the key itself or the key less one of the three
    suffixes. *)
Lemma de_unit_key_inv (key : string) :
  key = de_unit_key key \/ key = de_unit_key key ++ "f" \/
  key = de_unit_key key ++ "in" \/ key = de_unit_key key ++ "mph".
Proof.
  destruct (endswith key "f") eqn:Ef.
  { apply endswith_Suffix in Ef as [b ->]. rewrite de_unit_key_f. auto. }
  destruct (endswith key "in") eqn:Ein.
  { apply endswith_Suffix in Ein as [b ->]. rewrite de_unit_key_in. auto. }
  destruct (endswith key "mph") eqn:Emph.
  { apply endswith_Suffix in Emph as [b ->]. rewrite de_unit_key_mph. auto. }
  left. unfold de_unit_key. now rewrite Ef, Ein, Emph.
Qed.

(** C8.  [de_unit_key] removes one recognized suffix and no more: a key
    ending in [f] loses its last character, one ending in [in] its last
    two, one ending in [mph] its last three, and any other key is returned
    as it is.  The three suffixes exclude one another, so the order of the
    tests is immaterial: trying the longest suffix first computes the same
    function. *)
Theorem de_unit_key_spec (key : string) :
  de_unit_key key = de_unit_key_longest_first key /\
  (forall b, key = b ++ "f" ->
     de_unit_key key = b /\ String.length key = String.length b + 1) /\
  (forall b, key = b ++ "in" ->
     de_unit_key key = b /\ String.length key = String.length b + 2) /\
  (forall b, key = b ++ "mph" ->
     de_unit_key key = b /\ String.length key = String.length b + 3) /\
  (~ Suffix "f" key -> ~ Suffix "in" key -> ~ Suffix "mph" key ->
     de_unit_key key = key).
Proof.
  split; [|split; [|split; [|split]]].
  - unfold de_unit_key, de_unit_key_longest_first.
    destruct (endswith key "f") eqn:Ef.
    + apply endswith_Suffix in Ef.
      rewrite (endswith_exclusive _ "f" "mph" Ef) by (simpl; congruence).
      now rewrite (endswith_exclusive _ "f" "in" Ef) by (simpl; congruence).
    + destruct (endswith key "in") eqn:Ein; [|reflexivity].
      apply endswith_Suffix in Ein.
      now rewrite (endswith_exclusive _ "in" "mph" Ein) by (simpl; congruence).
  - intros b ->. split; [apply de_unit_key_f | apply length_append].
  - intros b ->. split; [apply de_unit_key_in | apply length_append].
  - intros b ->. split; [apply de_unit_key_mph | apply length_append].
  - apply de_unit_key_other.
Qed.

(** C8 at [tempf], [rainratein], [windspeedmph] and [humidity]; a key that
    ends in two suffixes loses the outer one only. *)
Lemma de_unit_key_spec_witness :
  de_unit_key "tempf" = "temp" /\
  de_unit_key "rainratein" = "rainrate" /\
  de_unit_key "windspeedmph" = "windspeed" /\
  de_unit_key "humidity" = "humidity" /\
  de_unit_key "tempinf" = "tempin".
Proof.
  pose proof (de_unit_key_spec "tempf") as (_ & Hf & _).
  pose proof (de_unit_key_spec "rainratein") as (_ & _ & Hin & _).
  pose proof (de_unit_key_spec "windspeedmph") as (_ & _ & _ & Hmph & _).
  pose proof (de_unit_key_spec "humidity") as (_ & _ & _ & _ & Hno).
  pose proof (de_unit_key_spec "tempinf") as (_ & Hf' & _).
  split; [|split; [|split; [|split]]].
  - apply (Hf "temp"). reflexivity.
  - apply (Hin "rainrate"). reflexivity.
  - apply (Hmph "windspeed"). reflexivity.
  - apply Hno; rewrite <- endswith_Suffix; vm_compute; discriminate.
  - apply (Hf' "tempin"). reflexivity.
Defined.

(** ** [get_data_type] *)

(** The head of [filter f l] is the first element of [l] that passes. *)
Lemma filter_first {A} (f : A -> bool) (l : list A) :
  match filter f l with
  | x :: _ =>
      exists before after,
        l = (before ++ x :: after)%list /\ f x = true /\
        forall y, In y before -> f y = false
  | [] => forall y, In y l -> f y = false
  end.
Proof.
  induction l as [|a l IH]; simpl.
  - intros y [].
  - destruct (f a) eqn:Ea.
    + exists [], l. repeat split; [assumption | intros y []].
    + destruct (filter f l) as [|x rest].
      * intros y [<- | Hy]; [assumption | now apply IH].
      * destruct IH as (before & after & -> & Hx & Hbefore).
        exists (a :: before), after. repeat split; [assumption|].
        intros y [<- | Hy]; [assumption | now apply Hbefore].
Qed.

Lemma filter_skip {A} (f : A -> bool) (before : list A) (x : A) (after : list A) :
  (forall y, In y before -> f y = false) -> f x = true ->
  filter f (before ++ x :: after) = x :: filter f after.
Proof.
  intros Hbefore Hx. induction before as [|a before IH]; simpl.
  - now rewrite Hx.
  - rewrite (Hbefore a) by now left. apply IH. intros y Hy. apply Hbefore. now right.
Qed.

Lemma filter_none {A} (f : A -> bool) (l : list A) :
  (forall y, In y l -> f y = false) -> filter f l = [].
Proof.
  intros Hl. induction l as [|a l IH]; simpl; [reflexivity|].
  rewrite (Hl a) by now left. apply IH. intros y Hy. apply Hl. now right.
Qed.

Lemma list_mem_In (k : string) (l : list string) :
  list_mem k l = true <-> In k l.
Proof.
  unfold list_mem. rewrite existsb_exists. split.
  - intros (x & Hx & E). apply String.eqb_eq in E. now subst.
  - intros Hk. exists k. split; [assumption | apply String.eqb_refl].
Qed.

Lemma dict_mem_In {V} (k : string) (d : dict V) :
  dict_mem k d = true <-> In k (dict_keys d).
Proof. apply list_mem_In. Qed.

Lemma registered_In (key : string) :
  dict_mem key CALCULATOR_FUNCTION_MAP = true <-> In key registry.
Proof. apply dict_mem_In. Qed.

Lemma get_data_type_exact (key : string) :
  In key registry -> get_data_type key = Some key.
Proof.
  intros Hin. unfold get_data_type.
  apply registered_In in Hin. now rewrite Hin.
Qed.

Lemma get_data_type_resolves (key : string) :
  resolves key (get_data_type key).
Proof.
  unfold get_data_type.
  destruct (dict_mem key CALCULATOR_FUNCTION_MAP) eqn:Emem.
  - apply resolves_exact. now apply registered_In.
  - assert (Hnot : ~ In key registry).
    { rewrite <- registered_In. now rewrite Emem. }
    pose proof (filter_first (fun k => str_in k key)
                  (dict_keys CALCULATOR_FUNCTION_MAP)) as Hfirst.
    cbv zeta.
    destruct (filter (fun k => str_in k key) (dict_keys CALCULATOR_FUNCTION_MAP))
      as [|k rest].
    + apply resolves_none. intros k Hk Hsub.
      apply str_in_Substring in Hsub. specialize (Hfirst k Hk).
      cbv beta in Hfirst. congruence.
    + destruct Hfirst as (before & after & Esplit & Hk & Hbefore).
      apply (resolves_substring key before k after); try assumption.
      * now apply str_in_Substring.
      * intros k' Hk' Hsub. apply str_in_Substring in Hsub.
        specialize (Hbefore k' Hk'). cbv beta in Hbefore. congruence.
Qed.

Lemma resolves_functional (key : string) (r : option string) :
  resolves key r -> get_data_type key = r.
Proof.
  intros Hr. destruct Hr as [Hin | before k after Hnot Esplit Hsub Hbefore | Hnone].
  - now apply get_data_type_exact.
  - unfold get_data_type.
    rewrite <- registered_In in Hnot. apply not_true_is_false in Hnot.
    rewrite Hnot. cbv zeta. fold registry. rewrite Esplit.
    rewrite filter_skip; [reflexivity | | now apply str_in_Substring].
    intros y Hy. apply not_true_is_false. rewrite str_in_Substring.
    now apply Hbefore.
  - unfold get_data_type.
    assert (Hnot : dict_mem key CALCULATOR_FUNCTION_MAP = false).
    { apply not_true_is_false. rewrite registered_In. intros Hin.
      apply (Hnone key Hin), Substring_refl. }
    rewrite Hnot. cbv zeta. fold registry. rewrite filter_none; [reflexivity|].
    intros y Hy. apply not_true_is_false. rewrite str_in_Substring.
    now apply Hnone.
Qed.

(** C1.  [get_data_type] meets the resolver's contract and nothing else
    does: the result is the key itself when the key is a registered
    identifier; otherwise the first registered identifier, in declaration
    order, that occurs in the key; otherwise no match.  In particular a
    registered key in which another registered identifier occurs resolves
    to itself. *)
Theorem get_data_type_spec (key : string) :
  (forall r, get_data_type key = r <-> resolves key r) /\
  (forall other,
     In key registry -> In other registry -> other <> key ->
     Substring other key ->
     get_data_type key = Some key).
Proof.
  split.
  - intros r. split.
    + intros <-. apply get_data_type_resolves.
    + apply resolves_functional.
  - intros other Hkey _ _ _. now apply get_data_type_exact.
Qed.

(** C1 at [windchill]: [wind] is declared before [windchill] and occurs in
    it, and the key still resolves to itself. *)
Lemma get_data_type_spec_witness :
  In "windchill" registry /\ In "wind" registry /\ "wind" <> "windchill" /\
  Substring "wind" "windchill" /\
  get_data_type "windchill" = Some "windchill".
Proof.
  assert (H1 : In "windchill" registry) by (vm_compute; tauto).
  assert (H2 : In "wind" registry) by (vm_compute; tauto).
  assert (H3 : "wind" <> "windchill") by discriminate.
  assert (H4 : Substring "wind" "windchill") by (now exists "", "chill").
  repeat (split; [assumption|]).
  exact (proj2 (get_data_type_spec "windchill") "wind" H1 H2 H3 H4).
Defined.

(** ** Dictionaries *)

Section DictFacts.
Context {V : Type}.
Implicit Types (d : dict V) (k : string) (v : V).

Lemma dict_get_In k d : dict_get k d <> None <-> In k (dict_keys d).
Proof.
  induction d as [|[k' v'] d IH]; simpl.
  - tauto.
  - destruct (String.eqb_spec k k') as [-> | Hne].
    + split; [now left | discriminate].
    + rewrite IH. split; [now right | intros [E | Hin]; congruence].
Qed.

Lemma dict_get_None k d : dict_get k d = None <-> ~ In k (dict_keys d).
Proof.
  rewrite <- dict_get_In. destruct (dict_get k d); intuition congruence.
Qed.

Lemma dict_mem_get k d : dict_mem k d = false <-> dict_get k d = None.
Proof.
  rewrite dict_get_None, <- dict_mem_In.
  destruct (dict_mem k d); intuition congruence.
Qed.

Lemma dict_get_set_eq k v d : dict_get k (dict_set k v d) = Some v.
Proof.
  induction d as [|[k' v'] d IH]; simpl.
  - now rewrite String.eqb_refl.
  - destruct (String.eqb_spec k k') as [-> | Hne]; simpl.
    + now rewrite String.eqb_refl.
    + destruct (String.eqb_spec k k'); [contradiction | assumption].
Qed.

Lemma dict_get_set_neq k k' v d :
  k <> k' -> dict_get k (dict_set k' v d) = dict_get k d.
Proof.
  intros Hne. induction d as [|[k'' v''] d IH]; simpl.
  - destruct (String.eqb_spec k k'); [contradiction | reflexivity].
  - destruct (String.eqb_spec k' k'') as [<- | Hne']; simpl.
    + destruct (String.eqb_spec k k'); [contradiction | reflexivity].
    + now rewrite IH.
Qed.

Lemma dict_keys_set k v d :
  dict_keys (dict_set k v d) =
  if dict_mem k d then dict_keys d else (dict_keys d ++ [k])%list.
Proof.
  unfold dict_mem. induction d as [|[k' v'] d IH]; simpl; [reflexivity|].
  destruct (String.eqb_spec k k') as [-> | Hne]; simpl; [reflexivity|].
  rewrite IH. now destruct (existsb (String.eqb k) (dict_keys d)).
Qed.

Lemma dict_set_In k k' v d :
  In k (dict_keys (dict_set k' v d)) <-> k = k' \/ In k (dict_keys d).
Proof.
  rewrite dict_keys_set. destruct (dict_mem k' d) eqn:E.
  - apply dict_mem_In in E. split; [now right | intros [-> | Hin]; assumption].
  - rewrite in_app_iff. simpl. intuition congruence.
Qed.

Lemma dict_set_NoDup k v d :
  NoDup (dict_keys d) -> NoDup (dict_keys (dict_set k v d)).
Proof.
  intros Hd. rewrite dict_keys_set. destruct (dict_mem k d) eqn:E; [assumption|].
  apply NoDup_app; [assumption | repeat constructor; intros [] |].
  intros x Hx [<- | []]. apply dict_mem_In in Hx. congruence.
Qed.

Lemma dict_set_length k v d :
  List.length (dict_set k v d) =
  if dict_mem k d then List.length d else S (List.length d).
Proof.
  pose proof (f_equal (@List.length _) (dict_keys_set k v d)) as E.
  unfold dict_keys in E. rewrite length_map in E. rewrite E.
  destruct (dict_mem k d); rewrite ?length_app, length_map; simpl; lia.
Qed.

Lemma dict_get_merge k d1 d2 :
  NoDup (dict_keys d2) ->
  dict_get k (dict_merge d1 d2) =
  match dict_get k d2 with
  | Some v => Some v
  | None => dict_get k d1
  end.
Proof.
  unfold dict_merge. revert d1.
  induction d2 as [|[k' v'] d2 IH]; intros d1 Hd; simpl; [reflexivity|].
  inversion Hd as [|? ? Hnotin Hd']; subst.
  rewrite IH by assumption.
  destruct (String.eqb_spec k k') as [-> | Hne].
  - apply dict_get_None in Hnotin. rewrite Hnotin. apply dict_get_set_eq.
  - now rewrite dict_get_set_neq.
Qed.

Lemma dict_merge_NoDup d1 d2 :
  NoDup (dict_keys d1) -> NoDup (dict_keys (dict_merge d1 d2)).
Proof.
  unfold dict_merge. revert d1.
  induction d2 as [|[k' v'] d2 IH]; intros d1 Hd; simpl; [assumption|].
  apply IH. now apply dict_set_NoDup.
Qed.

End DictFacts.

(** ** The registry *)

Lemma get_data_type_registered (key data_type : string) :
  get_data_type key = Some data_type -> In data_type registry.
Proof.
  intros E. pose proof (get_data_type_resolves key) as Hr. rewrite E in Hr.
  inversion Hr as [Hin | before k after _ Esplit _ _ |]; subst.
  - assumption.
  - rewrite Esplit. apply in_elt.
Qed.

Lemma registered_calculator (data_type : string) :
  In data_type registry ->
  data_type <> "" /\
  exists f, dict_get data_type CALCULATOR_FUNCTION_MAP = Some f.
Proof.
  intros Hin. apply dict_get_In in Hin. split.
  - intros ->. now apply Hin.
  - destruct (dict_get data_type CALCULATOR_FUNCTION_MAP) as [f|];
      [now exists f | contradiction].
Qed.

(** ** [_get_calculator_func] *)

Section EngineFacts.
Context {R : Runtime} {C : Calculators}.
Implicit Types (self : DataProcessor) (key data_type : string).

(** What a request does, by the state of the cache. *)
Lemma get_calculator_func_cases key self :
  match get_data_type key with
  | None => _get_calculator_func key self = Ok None self
  | Some data_type =>
      match dict_get data_type (_calculator_funcs self) with
      | Some p => _get_calculator_func key self = Ok (Some p) self
      | None =>
          exists f,
            dict_get data_type CALCULATOR_FUNCTION_MAP = Some f /\
            _get_calculator_func key self =
              Ok (Some (fresh_partial self f)) (with_binding self data_type f)
      end
  end.
Proof.
  unfold _get_calculator_func.
  destruct (get_data_type key) as [data_type|] eqn:E; [|reflexivity].
  destruct (registered_calculator data_type) as [Hne [f Hf]];
    [now apply (get_data_type_registered key)|].
  apply String.eqb_neq in Hne. rewrite Hne.
  unfold bind, gets, getitem. cbv beta iota.
  destruct (dict_get data_type (_calculator_funcs self)) as [p|] eqn:Ecache.
  - assert (Hmem : dict_mem data_type (_calculator_funcs self) = true).
    { apply not_false_is_true. rewrite dict_mem_get. congruence. }
    rewrite Hmem. reflexivity.
  - apply dict_mem_get in Ecache. rewrite Ecache.
    exists f. split; [assumption|].
    rewrite Hf. unfold ret at 1.
    cbn [inspect_signature new_partial set_calculator_func
         _calculator_funcs _input_unit_system _output_unit_system
         _payload unique_id events allocated].
    rewrite dict_get_set_eq. reflexivity.
Qed.

Lemma bind_Ok {A B} (m : M A) (k : A -> M B) self (b : B) self'' :
  bind m k self = Ok b self'' ->
  exists a self', m self = Ok a self' /\ k a self' = Ok b self''.
Proof.
  unfold bind. destruct (m self) as [a self'|e self']; [|discriminate].
  intros E. now exists a, self'.
Qed.

Lemma returns_Ok {A} (r : result A) :
  returns r = true -> exists a self', r = Ok a self'.
Proof.
  destruct r as [a self'|e self']; [now exists a, self' | discriminate].
Qed.

Lemma same_config_refl self : same_config self self.
Proof. now repeat split. Qed.

Lemma same_config_trans self self' self'' :
  same_config self self' -> same_config self' self'' -> same_config self self''.
Proof. unfold same_config. intuition congruence. Qed.

Lemma same_config_binding self data_type f :
  same_config self (with_binding self data_type f).
Proof. now repeat split. Qed.

Lemma same_config_call self p args : same_config self (with_call self p args).
Proof. now repeat split. Qed.

Lemma cache_ok_binding self data_type f :
  dict_get data_type CALCULATOR_FUNCTION_MAP = Some f ->
  cache_ok self -> cache_ok (with_binding self data_type f).
Proof.
  intros Hf Hok data_type' p. cbn [with_binding _calculator_funcs
    _input_unit_system _output_unit_system].
  destruct (String.eqb_spec data_type' data_type) as [-> | Hne].
  - rewrite dict_get_set_eq. intros [= <-]. now exists f.
  - rewrite dict_get_set_neq by assumption. apply Hok.
Qed.

Lemma cache_kept_binding self data_type f :
  dict_get data_type (_calculator_funcs self) = None ->
  cache_kept self (with_binding self data_type f).
Proof.
  intros Hfresh data_type' p Hp. cbn [with_binding _calculator_funcs].
  rewrite dict_get_set_neq; [assumption | congruence].
Qed.

Lemma cache_ok_init payload ius ous : cache_ok (init payload ius ous).
Proof. intros data_type p. discriminate. Qed.

(** A request returns: it never raises, it yields no calculator exactly
    when no data type resolves, and a calculator it yields is the
    registered one bound to the unit systems of the session. *)
Lemma request_returns key self :
  exists r self',
    _get_calculator_func key self = Ok r self' /\
    (r = None <-> get_data_type key = None) /\
    same_config self self' /\ cache_kept self self' /\
    calls (events self') = calls (events self) /\
    (cache_ok self ->
     cache_ok self' /\
     forall p, r = Some p ->
       exists data_type f,
         get_data_type key = Some data_type /\
         dict_get data_type CALCULATOR_FUNCTION_MAP = Some f /\
         func p = f /\
         keywords p =
           bound_keywords f (_input_unit_system self) (_output_unit_system self)).
Proof.
  pose proof (get_calculator_func_cases key self) as Hcases.
  destruct (get_data_type key) as [data_type|] eqn:E.
  - destruct (dict_get data_type (_calculator_funcs self)) as [p|] eqn:Ecache.
    + exists (Some p), self. split; [assumption|].
      split; [split; discriminate|].
      split; [apply same_config_refl|]. split; [now intros ? ?|].
      split; [reflexivity|]. intros Hok. split; [assumption|].
      intros p' [= <-]. destruct (Hok _ _ Ecache) as (f & Hf & Hfunc & Hkw).
      now exists data_type, f.
    + destruct Hcases as (f & Hf & Hrun).
      exists (Some (fresh_partial self f)), (with_binding self data_type f).
      split; [assumption|]. split; [split; discriminate|].
      split; [apply same_config_binding|].
      split; [now apply cache_kept_binding|].
      split.
      { cbn [with_binding events]. unfold calls.
        rewrite flat_map_app. simpl. now rewrite app_nil_r. }
      intros Hok. split; [now apply cache_ok_binding|].
      intros p' [= <-]. now exists data_type, f.
  - exists None, self. split; [assumption|]. split; [tauto|].
    split; [apply same_config_refl|]. split; [now intros ? ?|].
    split; [reflexivity|]. intros Hok. split; [assumption | discriminate].
Qed.

(** ** The first loop *)

Lemma cache_ok_call self p args : cache_ok self -> cache_ok (with_call self p args).
Proof. intros Hok data_type p'. apply Hok. Qed.

Lemma invoke_eq p args self :
  invoke p args self = Ok (call (func p) (keywords p) args) (with_call self p args).
Proof. reflexivity. Qed.

(** One round of the first loop never raises, and stores what
    [translated_from] says. *)
Lemma translate_item_returns (t : dict Any) (item : string * string) self :
  cache_ok self ->
  exists self',
    translate_item t item self =
      Ok (translated_from (_input_unit_system self) (_output_unit_system self)
            t [item]) self' /\
    cache_ok self' /\ same_config self self'.
Proof.
  intros Hok. destruct item as [key value].
  unfold translate_item, translated_from. cbn [fold_left fst snd].
  fold (ignored key). destruct (ignored key).
  { exists self. split; [reflexivity|]. split; [assumption | apply same_config_refl]. }
  destruct (request_returns key self)
    as (r & self1 & Hrun & Hnone & Hcfg & _ & _ & Hbound).
  destruct (Hbound Hok) as [Hok1 Hp]. clear Hbound.
  unfold bind. rewrite Hrun. destruct r as [p|].
  - destruct (Hp p eq_refl) as (data_type & f & Etype & Hf & Hfunc & Hkw).
    rewrite invoke_eq. unfold ret.
    exists (with_call self1 p [coerce value]). split.
    + unfold translated_key, translated_value. rewrite Etype, Hf, Hfunc, Hkw.
      reflexivity.
    + split; [now apply cache_ok_call|].
      eapply same_config_trans; [eassumption | apply same_config_call].
  - assert (Etype : get_data_type key = None) by now apply Hnone.
    exists self1. unfold ret, translated_key, translated_value.
    rewrite Etype. split; [reflexivity|]. split; assumption.
Qed.

Lemma translated_from_app ius ous (acc : dict Any) (l1 l2 : dict string) :
  translated_from ius ous acc (l1 ++ l2)%list =
  translated_from ius ous (translated_from ius ous acc l1) l2.
Proof. apply fold_left_app. Qed.

Lemma translate_loop (l : dict string) (acc : dict Any) self :
  cache_ok self ->
  exists self',
    for_each translate_item acc l self =
      Ok (translated_from (_input_unit_system self) (_output_unit_system self)
            acc l) self' /\
    cache_ok self' /\ same_config self self'.
Proof.
  revert acc self. induction l as [|item l IH]; intros acc self Hok.
  - exists self. split; [reflexivity|]. split; [assumption | apply same_config_refl].
  - destruct (translate_item_returns acc item self Hok)
      as (self1 & Hitem & Hok1 & Hcfg1).
    destruct (IH (translated_from (_input_unit_system self)
                    (_output_unit_system self) acc [item]) self1 Hok1)
      as (self2 & Hrest & Hok2 & Hcfg2).
    exists self2. cbn [for_each]. unfold bind. rewrite Hitem, Hrest.
    pose proof Hcfg1 as (Eius & Eous & _). rewrite Eius, Eous.
    split; [reflexivity|]. split; [assumption|].
    eapply same_config_trans; eassumption.
Qed.

(** The first loop returns for every payload. *)
Lemma translate_returns (payload : dict string) (ius ous : string) :
  exists self1,
    translate (init payload ius ous) =
      Ok (translated_from ius ous [] payload) self1 /\
    cache_ok self1 /\ same_config (init payload ius ous) self1.
Proof.
  unfold translate, bind, gets.
  apply (translate_loop payload [] (init payload ius ous)), cache_ok_init.
Qed.

(** *** The translated mapping as a function of the payload *)

Lemma kept_cons (key value : string) (l : dict string) :
  kept ((key, value) :: l) = if ignored key then kept l else key :: kept l.
Proof. unfold kept. simpl. now destruct (ignored key). Qed.

Lemma translated_from_cons ius ous (acc : dict Any) key value (l : dict string) :
  translated_from ius ous acc ((key, value) :: l) =
  translated_from ius ous
    (if ignored key then acc
     else dict_set (translated_key key) (translated_value ius ous key value) acc)
    l.
Proof. reflexivity. Qed.

Lemma translated_from_keys ius ous (l : dict string) (acc : dict Any) (k : string) :
  In k (dict_keys (translated_from ius ous acc l)) <->
  In k (dict_keys acc) \/ exists raw, In raw (kept l) /\ translated_key raw = k.
Proof.
  revert acc. induction l as [|[key value] l IH]; intros acc.
  - simpl. split; [now left | intros [Hin | (raw & [] & _)]; assumption].
  - rewrite translated_from_cons, kept_cons, IH. destruct (ignored key).
    + reflexivity.
    + rewrite dict_set_In. split.
      * intros [[-> | Hin] | (raw & Hraw & <-)].
        -- right. exists key. split; [now left | reflexivity].
        -- now left.
        -- right. exists raw. split; [now right | reflexivity].
      * intros [Hin | (raw & [<- | Hraw] & <-)].
        -- left. now right.
        -- left. now left.
        -- right. now exists raw.
Qed.

Lemma translated_from_NoDup ius ous (l : dict string) (acc : dict Any) :
  NoDup (dict_keys acc) -> NoDup (dict_keys (translated_from ius ous acc l)).
Proof.
  revert acc. induction l as [|[key value] l IH]; intros acc Hacc; [assumption|].
  rewrite translated_from_cons. apply IH.
  destruct (ignored key); [assumption | now apply dict_set_NoDup].
Qed.

(** Entries whose key no later raw key is stored under stay as they are. *)
Lemma translated_from_get_other ius ous (l : dict string) (acc : dict Any) (k : string) :
  (forall raw, In raw (kept l) -> translated_key raw <> k) ->
  dict_get k (translated_from ius ous acc l) = dict_get k acc.
Proof.
  revert acc. induction l as [|[key value] l IH]; intros acc Hl; [reflexivity|].
  rewrite translated_from_cons. rewrite kept_cons in Hl.
  destruct (ignored key).
  - now apply IH.
  - rewrite IH by (intros raw Hraw; apply Hl; now right).
    apply dict_get_set_neq. intros ->. apply (Hl key); [now left | reflexivity].
Qed.

Lemma translated_from_length_le ius ous (l : dict string) (acc : dict Any) :
  List.length (translated_from ius ous acc l) <=
  List.length acc + List.length (kept l).
Proof.
  revert acc. induction l as [|[key value] l IH]; intros acc.
  - simpl. lia.
  - rewrite translated_from_cons, kept_cons. destruct (ignored key).
    + apply IH.
    + etransitivity; [apply IH|]. rewrite dict_set_length.
      destruct (dict_mem _ acc); simpl; lia.
Qed.

Lemma translated_from_length_eq ius ous (l : dict string) (acc : dict Any) :
  NoDup (map translated_key (kept l)) ->
  (forall raw, In raw (kept l) -> ~ In (translated_key raw) (dict_keys acc)) ->
  List.length (translated_from ius ous acc l) =
  List.length acc + List.length (kept l).
Proof.
  revert acc. induction l as [|[key value] l IH]; intros acc Hnd Hacc.
  - simpl. lia.
  - rewrite translated_from_cons. rewrite kept_cons in Hnd, Hacc |- *.
    destruct (ignored key).
    + now apply IH.
    + simpl in Hnd. inversion Hnd as [|? ? Hfresh Hnd']; subst.
      rewrite IH; [| assumption |].
      * rewrite dict_set_length.
        assert (E : dict_mem (translated_key key) acc = false).
        { apply not_true_is_false. rewrite dict_mem_In. apply Hacc. now left. }
        rewrite E. simpl. lia.
      * intros raw Hraw. rewrite dict_set_In. intros [E | Hin].
        -- apply Hfresh. rewrite <- E. now apply in_map.
        -- apply (Hacc raw); [now right | assumption].
Qed.

(** ** The second loop *)

Lemma payload_values_Ok (payload : dict string) (input_keys : list string)
    self (raws : list string) self' :
  comprehension (fun k => getitem k payload) input_keys self = Ok raws self' ->
  self' = self /\ raw_values payload input_keys raws.
Proof.
  unfold raw_values. revert raws.
  induction input_keys as [|k input_keys IH]; intros raws; cbn [comprehension].
  - intros [= <- <-]. split; [reflexivity | constructor].
  - intros E. apply bind_Ok in E as (raw & self1 & Hget & E).
    apply bind_Ok in E as (rest & self2 & Hrest & E).
    injection E as <- <-. unfold getitem in Hget.
    destruct (dict_get k payload) as [v|] eqn:Ek; [|discriminate].
    injection Hget as <- <-.
    destruct (IH rest Hrest) as [-> Hall].
    split; [reflexivity | now constructor].
Qed.

Lemma calls_app (l1 l2 : list event) : calls (l1 ++ l2) = (calls l1 ++ calls l2)%list.
Proof. apply flat_map_app. Qed.

(** One round of the second loop, when it returns. *)
Lemma derive_item_Ok (t calc : dict Any) (item : string * list string)
    self (calc' : dict Any) self' :
  cache_ok self -> In (fst item) registry ->
  derive_item t calc item self = Ok calc' self' ->
  cache_ok self' /\ same_config self self' /\
  if gate t (snd item) then
    exists v,
      derived_value (_payload self) (_input_unit_system self)
        (_output_unit_system self) item v /\
      calc' = dict_set (fst item) v calc /\
      exists c,
        derived_call (_payload self) (_input_unit_system self)
          (_output_unit_system self) item c /\
        calls (events self') = (calls (events self) ++ [c])%list
  else calc' = calc /\ self' = self.
Proof.
  intros Hok Hreg. destruct item as [target input_keys]. cbn [fst snd] in *.
  unfold derive_item. fold (gate t input_keys).
  destruct (gate t input_keys); cbn [negb].
  2:{ intros [= <- <-]. split; [assumption|]. split; [apply same_config_refl|].
      now split. }
  intros E. apply bind_Ok in E as (r & self1 & Hrun & E).
  destruct (request_returns target self)
    as (r' & self1' & Hrun' & Hnone & Hcfg & _ & Hcalls & Hbound).
  rewrite Hrun in Hrun'. injection Hrun' as <- <-.
  destruct (Hbound Hok) as [Hok1 Hp]. clear Hbound.
  destruct r as [p|].
  2:{ rewrite (get_data_type_exact target Hreg) in Hnone.
      destruct Hnone as [Hnone _]. discriminate (Hnone eq_refl). }
  destruct (Hp p eq_refl) as (data_type & f & Etype & Hf & Hfunc & Hkw).
  rewrite (get_data_type_exact target Hreg) in Etype. injection Etype as <-.
  apply bind_Ok in E as (payload & self2 & Hpayload & E).
  injection Hpayload as <- <-.
  apply bind_Ok in E as (raws & self3 & Hraws & E).
  apply payload_values_Ok in Hraws as [-> Hraws].
  apply bind_Ok in E as (output & self4 & Hinvoke & E).
  rewrite invoke_eq in Hinvoke. injection Hinvoke as <- <-.
  injection E as <- <-.
  pose proof Hcfg as (Eius & Eous & Epayload & _).
  rewrite Epayload in Hraws.
  split; [now apply cache_ok_call|].
  split; [eapply same_config_trans; [eassumption | apply same_config_call]|].
  exists (call f (bound_keywords f (_input_unit_system self)
                    (_output_unit_system self)) (map VStr raws)).
  split; [now exists f, raws|].
  split; [now rewrite Hfunc, Hkw|].
  exists (f, bound_keywords f (_input_unit_system self)
               (_output_unit_system self), map VStr raws).
  split; [now exists f, raws|].
  cbn [with_call events]. rewrite calls_app, Hcalls. simpl.
  now rewrite Hfunc, Hkw.
Qed.

Lemma derived_value_config payload ius ous payload' ius' ous' item (v : Any) :
  payload' = payload -> ius' = ius -> ous' = ous ->
  derived_value payload' ius' ous' item v -> derived_value payload ius ous item v.
Proof. now intros -> -> ->. Qed.

Lemma derived_call_config payload ius ous payload' ius' ous' item c :
  payload' = payload -> ius' = ius -> ous' = ous ->
  derived_call payload' ius' ous' item c -> derived_call payload ius ous item c.
Proof. now intros -> -> ->. Qed.

(** The second loop over any list of metrics with distinct, registered
    targets, when it returns: the results hold the value of each metric
    whose gate is open and are otherwise as before, and the calls made are
    those of the open metrics, in the order of the list. *)
Lemma derive_loop (t : dict Any) (specs : list (string * list string)) :
  forall (acc : dict Any) self (calc : dict Any) self',
  cache_ok self ->
  (forall item, In item specs -> In (fst item) registry) ->
  NoDup (map fst specs) ->
  for_each (derive_item t) acc specs self = Ok calc self' ->
  same_config self self' /\
  (forall k, ~ In k (map fst specs) -> dict_get k calc = dict_get k acc) /\
  (forall item, In item specs ->
     if gate t (snd item) then
       exists v,
         derived_value (_payload self) (_input_unit_system self)
           (_output_unit_system self) item v /\
         dict_get (fst item) calc = Some v
     else dict_get (fst item) calc = dict_get (fst item) acc) /\
  (NoDup (dict_keys acc) -> NoDup (dict_keys calc)) /\
  exists cs,
    calls (events self') = (calls (events self) ++ cs)%list /\
    Forall2
      (derived_call (_payload self) (_input_unit_system self)
         (_output_unit_system self))
      (filter (fun item => gate t (snd item)) specs) cs.
Proof.
  induction specs as [|item specs IH]; intros acc self calc self' Hok Hreg Hnd E.
  - injection E as <- <-. split; [apply same_config_refl|].
    split; [reflexivity|]. split; [intros item []|]. split; [trivial|].
    exists []. split; [now rewrite app_nil_r | constructor].
  - cbn [for_each] in E. apply bind_Ok in E as (acc1 & self1 & Hitem & E).
    apply derive_item_Ok in Hitem as (Hok1 & Hcfg1 & Hitem);
      [| assumption | apply Hreg; now left].
    simpl in Hnd. inversion Hnd as [|? ? Hfresh Hnd']; subst.
    destruct (IH acc1 self1 calc self' Hok1
                (fun item' Hin => Hreg item' (or_intror Hin)) Hnd' E)
      as (Hcfg & Hother & Hvalues & Hkeys & cs & Hcalls & Hcs).
    clear IH E.
    pose proof Hcfg1 as (Eius & Eous & Epayload & _).
    assert (Hacc1 : forall k, k <> fst item -> dict_get k acc1 = dict_get k acc).
    { intros k Hk. destruct (gate t (snd item)).
      - destruct Hitem as (v & _ & -> & _). now apply dict_get_set_neq.
      - now destruct Hitem as [-> _]. }
    split; [eapply same_config_trans; eassumption|].
    split.
    { intros k Hk. simpl in Hk. rewrite Hother by tauto. apply Hacc1.
      intros ->. tauto. }
    split.
    { intros item' [<- | Hin].
      - rewrite (Hother (fst item) Hfresh).
        destruct (gate t (snd item)).
        + destruct Hitem as (v & Hv & -> & _). exists v.
          split; [assumption | apply dict_get_set_eq].
        + now destruct Hitem as [-> _].
      - specialize (Hvalues item' Hin).
        destruct (gate t (snd item')).
        + destruct Hvalues as (v & Hv & Hget). exists v. split; [|assumption].
          now apply (derived_value_config _ _ _ _ _ _ _ _ Epayload Eius Eous).
        + rewrite Hvalues. apply Hacc1. intros Heq. apply Hfresh.
          rewrite <- Heq. now apply in_map. }
    split.
    { intros Hacc. apply Hkeys. destruct (gate t (snd item)).
      - destruct Hitem as (v & _ & -> & _). now apply dict_set_NoDup.
      - now destruct Hitem as [-> _]. }
    cbn [filter]. destruct (gate t (snd item)).
    + destruct Hitem as (v & _ & _ & c & Hc & Hcalls1).
      exists (c :: cs). split.
      * rewrite Hcalls, Hcalls1, <- app_assoc. reflexivity.
      * constructor; [assumption|].
        eapply Forall2_impl; [|eassumption]. intros item' c'.
        now apply derived_call_config.
    + destruct Hitem as [_ ->]. exists cs. split; [assumption|].
      eapply Forall2_impl; [|eassumption]. intros item' c'.
      now apply derived_call_config.
Qed.

Lemma bind_Raise {A B} (m : M A) (k : A -> M B) self (e : exn) self'' :
  bind m k self = Raise e self'' ->
  m self = Raise e self'' \/
  exists a self', m self = Ok a self' /\ k a self' = Raise e self''.
Proof.
  unfold bind. destruct (m self) as [a self'|e' self']; intros E.
  - right. now exists a, self'.
  - left. now injection E as -> ->.
Qed.

Lemma payload_values_Raise (payload : dict string) (input_keys : list string)
    self (e : exn) self' :
  comprehension (fun k => getitem k payload) input_keys self = Raise e self' ->
  self' = self /\
  exists k, In k input_keys /\ dict_get k payload = None /\ e = KeyError k.
Proof.
  induction input_keys as [|k input_keys IH]; cbn [comprehension];
    [discriminate|].
  intros E. apply bind_Raise in E as [E | (raw & self1 & Hget & E)].
  - unfold getitem in E. destruct (dict_get k payload) eqn:Ek; [discriminate|].
    injection E as <- <-. split; [reflexivity|]. exists k. now repeat split; [left|..].
  - unfold getitem in Hget. destruct (dict_get k payload) eqn:Ek; [|discriminate].
    injection Hget as <- <-.
    apply bind_Raise in E as [E | (rest & self2 & _ & E)]; [|discriminate].
    destruct (IH E) as (-> & k' & Hk' & Hnone & ->).
    split; [reflexivity|]. exists k'. split; [now right | now split].
Qed.

(** One round of the second loop, when it raises: the gate is open, an
    input key is no key of the raw payload, and no calculator was called. *)
Lemma derive_item_Raise (t calc : dict Any) (item : string * list string)
    self (e : exn) self' :
  derive_item t calc item self = Raise e self' ->
  gate t (snd item) = true /\
  (exists k, In k (snd item) /\ dict_get k (_payload self) = None /\
             e = KeyError k) /\
  calls (events self') = calls (events self).
Proof.
  destruct item as [target input_keys]. cbn [fst snd].
  unfold derive_item. fold (gate t input_keys).
  destruct (gate t input_keys); cbn [negb]; [|discriminate].
  intros E. split; [reflexivity|].
  destruct (request_returns target self)
    as (r & self1 & Hrun & _ & Hcfg & _ & Hcalls & _).
  apply bind_Raise in E as [E | (r' & self1' & Hrun' & E)]; [congruence|].
  rewrite Hrun in Hrun'. injection Hrun' as <- <-.
  destruct r as [p|]; [|discriminate].
  apply bind_Raise in E as [E | (payload & self2 & Hpayload & E)]; [discriminate|].
  injection Hpayload as <- <-.
  apply bind_Raise in E as [E | (raws & self3 & _ & E)].
  - apply payload_values_Raise in E as (-> & k & Hk & Hnone & ->).
    destruct Hcfg as (_ & _ & Epayload & _). rewrite Epayload in Hnone.
    split; [now exists k | assumption].
  - apply bind_Raise in E as [E | (output & self4 & _ & E)]; discriminate.
Qed.

(** The second loop, when it raises: it stopped at a metric whose gate is
    open and one of whose input keys is no key of the raw payload, after
    the calls of the open metrics before it. *)
Lemma derive_loop_Raise (t : dict Any) (specs : list (string * list string)) :
  forall (acc : dict Any) self (e : exn) self',
  cache_ok self ->
  (forall item, In item specs -> In (fst item) registry) ->
  for_each (derive_item t) acc specs self = Raise e self' ->
  exists done item rest cs,
    specs = (done ++ item :: rest)%list /\
    gate t (snd item) = true /\
    (exists k, In k (snd item) /\ dict_get k (_payload self) = None /\
               e = KeyError k) /\
    calls (events self') = (calls (events self) ++ cs)%list /\
    Forall2
      (derived_call (_payload self) (_input_unit_system self)
         (_output_unit_system self))
      (filter (fun item => gate t (snd item)) done) cs.
Proof.
  induction specs as [|item specs IH]; intros acc self e self' Hok Hreg E;
    [discriminate|].
  cbn [for_each] in E. apply bind_Raise in E as [E | (acc1 & self1 & Hitem & E)].
  - apply derive_item_Raise in E as (Hgate & Hmissing & Hcalls).
    exists [], item, specs, []. split; [reflexivity|]. split; [assumption|].
    split; [assumption|]. split; [now rewrite app_nil_r | constructor].
  - apply derive_item_Ok in Hitem as (Hok1 & Hcfg1 & Hitem);
      [| assumption | apply Hreg; now left].
    destruct (IH acc1 self1 e self' Hok1
                (fun item' Hin => Hreg item' (or_intror Hin)) E)
      as (done & item' & rest & cs & -> & Hgate & Hmissing & Hcalls & Hcs).
    pose proof Hcfg1 as (Eius & Eous & Epayload & _).
    rewrite Eius, Eous, Epayload in Hcs. rewrite Epayload in Hmissing.
    exists (item :: done), item', rest.
    cbn [filter]. destruct (gate t (snd item)).
    + destruct Hitem as (v & _ & _ & c & Hc & Hcalls1).
      exists (c :: cs). split; [reflexivity|]. split; [assumption|].
      split; [assumption|]. split.
      * rewrite Hcalls, Hcalls1, <- app_assoc. reflexivity.
      * now constructor.
    + destruct Hitem as [_ ->]. exists cs. now repeat split.
Qed.

Lemma derived_metrics_registered (item : string * list string) :
  In item DERIVED_METRICS -> In (fst item) registry.
Proof.
  intros Hin. apply registered_In.
  repeat (destruct Hin as [<- | Hin]; [reflexivity|]). destruct Hin.
Qed.

Lemma derived_metrics_NoDup : NoDup (map fst DERIVED_METRICS).
Proof.
  repeat constructor; simpl; intuition discriminate.
Qed.

(** ** [generate_data] *)

Lemma gate_spec (t : dict Any) (input_keys : list string) :
  gate t input_keys = true <-> forall k, In k input_keys -> In k (dict_keys t).
Proof.
  unfold gate. rewrite forallb_forall.
  split; intros Hall k Hk; apply dict_mem_In; now apply Hall.
Qed.

Lemma gate_closed (t : dict Any) (input_keys : list string) :
  gate t input_keys = false <->
  exists k, In k input_keys /\ ~ In k (dict_keys t).
Proof.
  unfold gate. split.
  - intros E. induction input_keys as [|k input_keys IH]; [discriminate|].
    simpl in E. apply andb_false_iff in E as [E | E].
    + exists k. split; [now left|]. rewrite <- dict_mem_In. congruence.
    + destruct (IH E) as (k' & Hk' & Hnot). exists k'. split; [now right | assumption].
  - intros (k & Hk & Hnot). apply not_true_is_false. rewrite forallb_forall.
    intros Hall. apply Hnot, dict_mem_In, Hall, Hk.
Qed.

(** How a run that returns is made up. *)
Lemma run_Ok (payload : dict string) (ius ous : string) (out : dict Any) self2 :
  run payload ius ous = Ok out self2 ->
  exists self1 calc,
    translate (init payload ius ous) =
      Ok (translated_from ius ous [] payload) self1 /\
    cache_ok self1 /\ same_config (init payload ius ous) self1 /\
    derive (translated_from ius ous [] payload) self1 = Ok calc self2 /\
    out = dict_merge (translated_from ius ous [] payload) calc.
Proof.
  unfold run, generate_data. intros E.
  apply bind_Ok in E as (t & self1 & Ht & E).
  apply bind_Ok in E as (calc & self2' & Hcalc & E).
  injection E as <- <-.
  destruct (translate_returns payload ius ous) as (self1' & Ht' & Hok & Hcfg).
  rewrite Ht in Ht'. injection Ht' as -> <-.
  now exists self1, calc.
Qed.

(** The second loop of a run, with the session's payload and unit systems
    spelled out. *)
Lemma run_derive (payload : dict string) (ius ous : string) (out : dict Any) self2 :
  run payload ius ous = Ok out self2 ->
  let t := translated_from ius ous [] payload in
  exists self1 calc,
    translate (init payload ius ous) = Ok t self1 /\
    out = dict_merge t calc /\
    NoDup (dict_keys calc) /\
    (forall k, ~ In k (map fst DERIVED_METRICS) -> dict_get k calc = None) /\
    (forall item, In item DERIVED_METRICS ->
       if gate t (snd item) then
         exists v, derived_value payload ius ous item v /\
                   dict_get (fst item) calc = Some v
       else dict_get (fst item) calc = None) /\
    exists cs,
      calls (events self2) = (calls (events self1) ++ cs)%list /\
      Forall2 (derived_call payload ius ous)
        (filter (fun item => gate t (snd item)) DERIVED_METRICS) cs.
Proof.
  intros E t. apply run_Ok in E as (self1 & calc & Ht & Hok & Hcfg & Hcalc & ->).
  fold t in Ht, Hcalc |- *.
  apply derive_loop in Hcalc
    as (_ & Hother & Hvalues & Hkeys & cs & Hcalls & Hcs);
    [| assumption | apply derived_metrics_registered | apply derived_metrics_NoDup].
  destruct Hcfg as (Eius & Eous & Epayload & _).
  cbn [init _input_unit_system _output_unit_system _payload] in Eius, Eous, Epayload.
  rewrite Eius, Eous, Epayload in Hvalues, Hcs.
  exists self1, calc. split; [assumption|]. split; [reflexivity|].
  split; [apply Hkeys; constructor|]. split; [assumption|].
  split; [assumption|]. now exists cs.
Qed.

Lemma translate_functional (payload : dict string) (ius ous : string)
    (t : dict Any) self1 :
  translate (init payload ius ous) = Ok t self1 ->
  t = translated_from ius ous [] payload.
Proof.
  intros Ht. destruct (translate_returns payload ius ous) as (self1' & Ht' & _).
  congruence.
Qed.

(** C2, as the code has it.  Whenever [generate_data] returns, every key
    appears in the output once at most, and for each of the four derived
    metrics: if every input key of the metric is a key of the translated
    mapping, the output holds under the metric's identifier the value of
    its calculator on the raw payload values of the input keys; if some
    input key is missing, nothing is computed, and the output holds under
    the metric's identifier what the translated mapping holds there. *)
Theorem derived_metric_gating (payload : dict string) (ius ous : string)
    (t : dict Any) self1 (out : dict Any) self2 :
  translate (init payload ius ous) = Ok t self1 ->
  run payload ius ous = Ok out self2 ->
  NoDup (dict_keys out) /\
  forall target input_keys,
    In (target, input_keys) DERIVED_METRICS ->
    ((forall k, In k input_keys -> In k (dict_keys t)) ->
     exists v,
       derived_value payload ius ous (target, input_keys) v /\
       dict_get target out = Some v) /\
    ((exists k, In k input_keys /\ ~ In k (dict_keys t)) ->
     dict_get target out = dict_get target t).
Proof.
  intros Ht Hrun. apply translate_functional in Ht. subst t.
  apply run_derive in Hrun
    as (self1' & calc & _ & -> & Hnd & _ & Hvalues & _).
  split.
  { apply dict_merge_NoDup, translated_from_NoDup. constructor. }
  intros target input_keys Hin. specialize (Hvalues _ Hin). cbn [fst snd] in Hvalues.
  rewrite dict_get_merge by assumption. split.
  - intros Hall. apply gate_spec in Hall. rewrite Hall in Hvalues.
    destruct Hvalues as (v & Hv & Hget). exists v. now rewrite Hget.
  - intros Hmissing. apply gate_closed in Hmissing. rewrite Hmissing in Hvalues.
    now rewrite Hvalues.
Qed.

Lemma dict_get_Permutation {V} (d d' : dict V) (k : string) :
  NoDup (dict_keys d) -> Permutation d d' -> dict_get k d = dict_get k d'.
Proof.
  intros Hnd Hperm. induction Hperm as [| [k1 v1] l l' Hperm IH
    | [k1 v1] [k2 v2] l | l l' l'' Hperm1 IH1 Hperm2 IH2].
  - reflexivity.
  - simpl in *. inversion Hnd; subst. now rewrite IH.
  - simpl in *. inversion Hnd as [|? ? Hnotin _]; subst.
    destruct (String.eqb_spec k k2) as [E2 | H2];
      destruct (String.eqb_spec k k1) as [E1 | H1]; try reflexivity.
    exfalso. apply Hnotin. left. congruence.
  - rewrite IH1 by assumption. apply IH2.
    apply (Permutation_NoDup (Permutation_map fst Hperm1) Hnd).
Qed.

Lemma kept_In (payload : dict string) (raw : string) :
  In raw (kept payload) <-> In raw (dict_keys payload) /\ ignored raw = false.
Proof. unfold kept. rewrite filter_In, negb_true_iff. reflexivity. Qed.

Lemma gate_ext (t t' : dict Any) (input_keys : list string) :
  (forall k, In k (dict_keys t) <-> In k (dict_keys t')) ->
  gate t input_keys = gate t' input_keys.
Proof.
  intros Hkeys. unfold gate.
  assert (Hmem : forall k, dict_mem k t = dict_mem k t').
  { intros k. destruct (dict_mem k t) eqn:E; symmetry.
    - apply dict_mem_In, Hkeys, dict_mem_In, E.
    - apply not_true_is_false.
      rewrite dict_mem_In, <- Hkeys, <- dict_mem_In. congruence. }
  induction input_keys as [|k input_keys IH]; simpl; [reflexivity|].
  now rewrite Hmem, IH.
Qed.

Lemma translated_keys_Permutation ius ous (payload payload' : dict string) k :
  Permutation payload payload' ->
  In k (dict_keys (translated_from ius ous [] payload)) <->
  In k (dict_keys (translated_from ius ous [] payload')).
Proof.
  intros Hperm. rewrite !translated_from_keys.
  assert (Hkept : forall raw, In raw (kept payload) <-> In raw (kept payload')).
  { intros raw. rewrite !kept_In.
    assert (Hp : Permutation (dict_keys payload) (dict_keys payload'))
      by now apply Permutation_map.
    split; intros [Hin Hign]; (split; [|assumption]).
    - now apply (Permutation_in _ Hp).
    - now apply (Permutation_in _ (Permutation_sym Hp)). }
  split; intros [Hin | (raw & Hraw & E)]; try (now left);
    right; exists raw; (split; [now apply Hkept | assumption]).
Qed.

Lemma raw_values_functional (payload : dict string) (input_keys raws raws' : list string) :
  raw_values payload input_keys raws -> raw_values payload input_keys raws' ->
  raws = raws'.
Proof.
  unfold raw_values. intros H1. revert raws'.
  induction H1 as [|k raw input_keys raws Hk _ IH]; intros raws' H2;
    inversion H2; subst; [reflexivity|].
  f_equal; [congruence | now apply IH].
Qed.

Lemma derived_call_functional payload ius ous item c c' :
  derived_call payload ius ous item c -> derived_call payload ius ous item c' ->
  c = c'.
Proof.
  intros (f & raws & Hf & Hraws & ->) (f' & raws' & Hf' & Hraws' & ->).
  rewrite (raw_values_functional _ _ _ _ Hraws Hraws'). congruence.
Qed.

Lemma derived_call_Permutation payload payload' ius ous item c :
  NoDup (dict_keys payload) -> Permutation payload payload' ->
  derived_call payload ius ous item c -> derived_call payload' ius ous item c.
Proof.
  intros Hnd Hperm (f & raws & Hf & Hraws & ->).
  exists f, raws. split; [assumption|]. split; [|reflexivity].
  unfold raw_values in *. eapply Forall2_impl; [|exact Hraws].
  intros k raw Hk. now rewrite <- (dict_get_Permutation _ _ k Hnd Hperm).
Qed.

Lemma Forall2_functional {A B} (P : A -> B -> Prop) (l : list A) (l1 l2 : list B) :
  (forall a b b', P a b -> P a b' -> b = b') ->
  Forall2 P l l1 -> Forall2 P l l2 -> l1 = l2.
Proof.
  intros Hfun H1. revert l2.
  induction H1 as [|a b l l1 Hab _ IH]; intros l2 H2; inversion H2; subst;
    [reflexivity|].
  f_equal; [now apply (Hfun a) | now apply IH].
Qed.

(** A run is its first loop, which returns, and then its second loop. *)
Lemma run_cases (payload : dict string) (ius ous : string) :
  exists self1,
    translate (init payload ius ous) =
      Ok (translated_from ius ous [] payload) self1 /\
    cache_ok self1 /\ same_config (init payload ius ous) self1 /\
    run payload ius ous =
      match derive (translated_from ius ous [] payload) self1 with
      | Ok calc self2 =>
          Ok (dict_merge (translated_from ius ous [] payload) calc) self2
      | Raise e self2 => Raise e self2
      end.
Proof.
  destruct (translate_returns payload ius ous) as (self1 & Ht & Hok & Hcfg).
  exists self1. split; [assumption|]. split; [assumption|]. split; [assumption|].
  unfold run, generate_data, bind. rewrite Ht.
  now destruct (derive (translated_from ius ous [] payload) self1).
Qed.

Lemma raw_values_In (payload : dict string) (input_keys raws : list string) :
  raw_values payload input_keys raws ->
  forall k, In k input_keys -> In k (dict_keys payload).
Proof.
  unfold raw_values. induction 1 as [|k raw input_keys raws Hk _ IH];
    intros k' Hin; [destruct Hin|].
  destruct Hin as [<- | Hin].
  - apply dict_get_In. congruence.
  - now apply IH.
Qed.

(** [generate_data] returns exactly when every input key of every metric
    whose gate is open is a key of the raw payload. *)
Lemma run_returns_iff (payload : dict string) (ius ous : string) :
  returns (run payload ius ous) = true <->
  forall item, In item DERIVED_METRICS ->
    gate (translated_from ius ous [] payload) (snd item) = true ->
    forall k, In k (snd item) -> In k (dict_keys payload).
Proof.
  split.
  - intros Hret. apply returns_Ok in Hret as (out & self2 & Hrun).
    apply run_derive in Hrun as (_ & calc & _ & _ & _ & _ & Hvalues & _).
    intros item Hin Hgate. specialize (Hvalues item Hin).
    rewrite Hgate in Hvalues. destruct Hvalues as (v & (f & raws & _ & Hraws & _) & _).
    now apply (raw_values_In payload (snd item) raws).
  - intros Hall. destruct (run_cases payload ius ous) as (self1 & _ & Hok & Hcfg & ->).
    destruct (derive (translated_from ius ous [] payload) self1)
      as [calc self2|e self2] eqn:Hderive; [reflexivity|].
    apply derive_loop_Raise in Hderive
      as (done & item & rest & cs & Especs & Hgate & (k & Hk & Hnone & _) & _);
      [| assumption | apply derived_metrics_registered].
    destruct Hcfg as (_ & _ & Epayload & _). cbn [init _payload] in Epayload.
    rewrite Epayload in Hnone. apply dict_get_None in Hnone.
    exfalso. apply Hnone, (Hall item); try assumption.
    rewrite Especs. apply in_elt.
Qed.

(** X2.  The calls of the second loop.  In every run of
    [generate_data], whether it returns or raises,
    the calculator calls of the second loop are those of the metrics whose
    input keys are all keys of the translated mapping, one call each, in
    the order dew point, feels-like, heat index, wind chill, as far as the
    loop got; each call is of the metric's registered calculator, bound to
    the unit systems of the session, with the raw payload strings of the
    metric's input keys as positional arguments, in the order of the input
    list.  A run that returns has made the call of every such metric, and
    then the same entries in any other order give a run that returns and
    makes the same calls in the same order. *)
Theorem derived_calls_in_order (payload : dict string) (ius ous : string)
    (t : dict Any) self1 :
  translate (init payload ius ous) = Ok t self1 ->
  exists done rest cs,
    filter (fun item => gate t (snd item)) DERIVED_METRICS = (done ++ rest)%list /\
    calls (events (state_of (run payload ius ous))) =
      (calls (events self1) ++ cs)%list /\
    Forall2 (derived_call payload ius ous) done cs /\
    (returns (run payload ius ous) = true -> rest = []) /\
    forall payload' t' self1',
      returns (run payload ius ous) = true ->
      NoDup (dict_keys payload) ->
      Permutation payload payload' ->
      translate (init payload' ius ous) = Ok t' self1' ->
      returns (run payload' ius ous) = true /\
      calls (events (state_of (run payload' ius ous))) =
        (calls (events self1') ++ cs)%list.
Proof.
  intros Ht. pose proof (translate_functional _ _ _ _ _ Ht) as ->.
  set (t := translated_from ius ous [] payload).
  set (opened := filter (fun item => gate t (snd item)) DERIVED_METRICS).
  assert (Hperm : forall done rest cs,
    opened = (done ++ rest)%list ->
    Forall2 (derived_call payload ius ous) done cs ->
    (returns (run payload ius ous) = true -> rest = []) ->
    forall payload' t' self1',
      returns (run payload ius ous) = true ->
      NoDup (dict_keys payload) ->
      Permutation payload payload' ->
      translate (init payload' ius ous) = Ok t' self1' ->
      returns (run payload' ius ous) = true /\
      calls (events (state_of (run payload' ius ous))) =
        (calls (events self1') ++ cs)%list).
  { intros done rest cs Eopened Hcs Hrest payload' t' s1' Hret Hnd Hp Ht'.
    rewrite (Hrest Hret), app_nil_r in Eopened. subst done.
    pose proof (translate_functional _ _ _ _ _ Ht') as ->.
    assert (Hkeys : forall k,
      In k (dict_keys (translated_from ius ous [] payload')) <->
      In k (dict_keys t)).
    { intros k. symmetry. now apply translated_keys_Permutation. }
    assert (Hret' : returns (run payload' ius ous) = true).
    { apply run_returns_iff. intros item Hin Hgate k Hk.
      rewrite (gate_ext _ t _ Hkeys) in Hgate.
      apply (Permutation_in _ (Permutation_map fst Hp)).
      exact (proj1 (run_returns_iff payload ius ous) Hret item Hin Hgate k Hk). }
    split; [assumption|].
    destruct (returns_Ok _ Hret') as (out' & s2' & Hrun'). rewrite Hrun'.
    apply run_derive in Hrun'
      as (s1'' & calc' & Ht'' & _ & _ & _ & _ & cs' & Hcalls' & Hcs').
    rewrite Ht' in Ht''. injection Ht'' as <-.
    cbn [state_of]. rewrite Hcalls'. f_equal.
    assert (Efilter :
      filter (fun item => gate (translated_from ius ous [] payload') (snd item))
        DERIVED_METRICS = opened).
    { apply filter_ext. intros item. now apply gate_ext. }
    rewrite Efilter in Hcs'.
    apply (Forall2_functional (derived_call payload' ius ous) opened).
    - intros item c c'. apply derived_call_functional.
    - assumption.
    - eapply Forall2_impl; [|exact Hcs]. intros item c.
      now apply derived_call_Permutation. }
  destruct (run_cases payload ius ous) as (self1' & Ht' & Hok & Hcfg & Hrun).
  rewrite Ht in Ht'. injection Ht' as <-.
  fold t in Hrun.
  destruct (derive t self1) as [calc self2|e self2] eqn:Hderive.
  - apply derive_loop in Hderive
      as (_ & _ & _ & _ & cs & Hcalls & Hcs);
      [| assumption | apply derived_metrics_registered | apply derived_metrics_NoDup].
    destruct Hcfg as (Eius & Eous & Epayload & _).
    cbn [init _input_unit_system _output_unit_system _payload] in Eius, Eous, Epayload.
    rewrite Eius, Eous, Epayload in Hcs. fold opened in Hcs.
    exists opened, [], cs. rewrite Hrun. cbn [state_of].
    split; [now rewrite app_nil_r|]. split; [assumption|]. split; [assumption|].
    split; [reflexivity|].
    rewrite <- Hrun. apply (Hperm opened [] cs); [now rewrite app_nil_r | assumption | reflexivity].
  - apply derive_loop_Raise in Hderive
      as (done & item & rest & cs & Especs & Hgate & _ & Hcalls & Hcs);
      [| assumption | apply derived_metrics_registered].
    destruct Hcfg as (Eius & Eous & Epayload & _).
    cbn [init _input_unit_system _output_unit_system _payload] in Eius, Eous, Epayload.
    rewrite Eius, Eous, Epayload in Hcs.
    exists (filter (fun item => gate t (snd item)) done),
      (item :: filter (fun item => gate t (snd item)) rest), cs.
    rewrite Hrun. cbn [state_of returns].
    split.
    { unfold opened. rewrite Especs, filter_app. cbn [filter]. now rewrite Hgate. }
    split; [assumption|]. split; [assumption|].
    split; [discriminate|]. intros ? ? ? [=].
Qed.

(** A raw key that is not ignored is never stored under an ignored key. *)
Lemma translated_key_not_ignored (raw : string) :
  ignored raw = false -> ignored (translated_key raw) = false.
Proof.
  intros Hraw. unfold translated_key.
  destruct (get_data_type raw) as [data_type|] eqn:Etype; [|assumption].
  apply not_true_is_false. intros Hign. apply list_mem_In in Hign.
  pose proof (de_unit_key_inv raw) as Hinv.
  set (k := de_unit_key raw) in *. clearbody k.
  repeat (destruct Hign as [<- | Hign];
          [ destruct Hinv as [-> | [-> | [-> | ->]]];
            vm_compute in Hraw, Etype; discriminate |]).
  destruct Hign.
Qed.

(** C9, as the code has it.  The first loop returns for every payload.
    The keys of the translated mapping are the keys under which the raw
    keys that are not ignored are stored (the raw key itself when no data
    type resolves, [de_unit_key] of it otherwise), each once: there is one
    entry at most per such raw key, and one entry exactly per such raw
    key when these names are pairwise distinct.  Whenever [generate_data]
    returns, no key of the ignore set is a key of the output. *)
Theorem ignore_set_exclusion (payload : dict string) (ius ous : string) :
  exists t self1,
    translate (init payload ius ous) = Ok t self1 /\
    (forall k, In k (dict_keys t) <->
               exists raw, In raw (kept payload) /\ translated_key raw = k) /\
    NoDup (dict_keys t) /\
    List.length t <= List.length (kept payload) /\
    (NoDup (map translated_key (kept payload)) ->
     List.length t = List.length (kept payload)) /\
    (forall out self2,
       run payload ius ous = Ok out self2 ->
       forall k, In k DEFAULT_KEYS_TO_IGNORE -> ~ In k (dict_keys out)).
Proof.
  destruct (translate_returns payload ius ous) as (self1 & Ht & _).
  exists (translated_from ius ous [] payload), self1.
  split; [assumption|].
  assert (Hkeys : forall k,
    In k (dict_keys (translated_from ius ous [] payload)) <->
    exists raw, In raw (kept payload) /\ translated_key raw = k).
  { intros k. rewrite translated_from_keys. simpl. tauto. }
  split; [assumption|].
  split; [apply translated_from_NoDup; constructor|].
  split; [apply (translated_from_length_le ius ous payload [])|].
  split.
  { intros Hnd. apply (translated_from_length_eq ius ous payload []); [assumption|].
    intros raw _ []. }
  intros out self2 Hrun k Hk Hout.
  apply run_derive in Hrun as (_ & calc & _ & -> & Hnd & Hother & _).
  apply dict_get_In in Hout. rewrite dict_get_merge in Hout by assumption.
  apply list_mem_In in Hk. fold (ignored k) in Hk.
  destruct (dict_get k calc) eqn:Ecalc.
  - assert (Htarget : In k (map fst DERIVED_METRICS)).
    { destruct (in_dec string_dec k (map fst DERIVED_METRICS)) as [|Hnot];
        [assumption|]. rewrite (Hother k Hnot) in Ecalc. discriminate. }
    simpl in Htarget.
    repeat (destruct Htarget as [<- | Htarget]; [discriminate Hk|]).
    destruct Htarget.
  - apply dict_get_In, Hkeys in Hout as (raw & Hraw & <-).
    unfold kept in Hraw. apply filter_In in Hraw as [_ Hraw].
    apply negb_true_iff, translated_key_not_ignored in Hraw. congruence.
Qed.

(** C7, as the code has it.  Whenever [generate_data] returns: a raw key
    that is not ignored, whose data type does not resolve, and under which
    no later raw key is stored, is a key of the output, with the coerced
    raw value (the float when the string parses, the string otherwise). *)
Theorem pass_through (payload : dict string) (ius ous : string)
    (before : dict string) (key value : string) (after : dict string)
    (out : dict Any) self2 :
  payload = (before ++ (key, value) :: after)%list ->
  ignored key = false ->
  get_data_type key = None ->
  (forall raw, In raw (kept after) -> translated_key raw <> key) ->
  run payload ius ous = Ok out self2 ->
  dict_get key out = Some (coerce value).
Proof.
  intros -> Hkey Etype Hafter Hrun.
  apply run_derive in Hrun as (_ & calc & _ & -> & Hnd & Hother & _).
  rewrite dict_get_merge by assumption.
  rewrite Hother.
  - rewrite translated_from_app, translated_from_cons, Hkey.
    rewrite translated_from_get_other by assumption.
    unfold translated_key, translated_value. rewrite Etype.
    apply dict_get_set_eq.
  - intros Htarget. simpl in Htarget.
    repeat (destruct Htarget as [<- | Htarget]; [discriminate Etype|]).
    destruct Htarget.
Qed.

(** C10.  A data type that resolves is a key of the registry, so it has a
    calculator; a request for a calculator never raises, and it yields no
    calculator exactly when no data type resolves for the key. *)
Theorem resolved_type_has_calculator (key : string) :
  (forall data_type,
     get_data_type key = Some data_type ->
     In data_type (dict_keys CALCULATOR_FUNCTION_MAP) /\
     exists f, dict_get data_type CALCULATOR_FUNCTION_MAP = Some f) /\
  (forall self,
     exists r self',
       _get_calculator_func key self = Ok r self' /\
       (r = None <-> get_data_type key = None)).
Proof.
  split.
  - intros data_type E. apply get_data_type_registered in E.
    split; [assumption | now apply registered_calculator].
  - intros self.
    destruct (request_returns key self) as (r & self' & Hrun & Hnone & _).
    now exists r, self'.
Qed.

(** ** The calculator cache *)

Lemma registered_name_spec (data_type : string) (f : calculator) :
  dict_get data_type CALCULATOR_FUNCTION_MAP = Some f ->
  registered_name f = data_type.
Proof.
  intros Hf. assert (Hin : In data_type registry).
  { apply dict_get_In. congruence. }
  vm_compute in Hin.
  repeat (destruct Hin as [<- | Hin];
          [vm_compute in Hf; injection Hf as <-; reflexivity|]).
  destruct Hin.
Qed.

Lemma dict_set_fresh {V} (k : string) (v : V) (d : dict V) :
  dict_get k d = None -> dict_set k v d = (d ++ [(k, v)])%list.
Proof.
  induction d as [|[k' v'] d IH]; simpl; [reflexivity|].
  destruct (String.eqb k k'); [discriminate|]. intros E. now rewrite IH.
Qed.

Lemma dict_get_entry {V} (k : string) (v : V) (d : dict V) :
  dict_get k d = Some v -> In (k, v) d.
Proof.
  induction d as [|[k' v'] d IH]; simpl; [discriminate|].
  destruct (String.eqb_spec k k') as [-> | Hne].
  - intros [= ->]. now left.
  - intros E. right. now apply IH.
Qed.

Lemma inspections_app (l1 l2 : list event) :
  inspections (l1 ++ l2) = (inspections l1 ++ inspections l2)%list.
Proof. apply flat_map_app. Qed.

Lemma session_inv_init payload ius ous : session_inv (init payload ius ous).
Proof. repeat split; constructor. Qed.

Lemma session_inv_call self p args :
  session_inv self -> session_inv (with_call self p args).
Proof.
  intros (Hnd & Hins & Hall). repeat split; cbn [with_call _calculator_funcs
    events allocated]; try assumption.
  rewrite inspections_app. simpl. now rewrite app_nil_r.
Qed.

Lemma session_inv_binding self data_type f :
  dict_get data_type CALCULATOR_FUNCTION_MAP = Some f ->
  dict_get data_type (_calculator_funcs self) = None ->
  session_inv self -> session_inv (with_binding self data_type f).
Proof.
  intros Hf Hfresh (Hnd & Hins & Hall).
  unfold session_inv. cbn [with_binding _calculator_funcs events allocated].
  split; [now apply dict_set_NoDup|].
  rewrite (dict_set_fresh _ _ _ Hfresh). split.
  - rewrite inspections_app, map_app, Hins. reflexivity.
  - apply Forall_app. split.
    + eapply Forall_impl; [|exact Hall]. intros entry (Hentry & Hkw & Hident).
      split; [assumption|]. split; [assumption | lia].
    + constructor; [|constructor]. cbn. split; [assumption|].
      split; [reflexivity | lia].
Qed.

Lemma step_cases self self' :
  step self self' ->
  self' = self \/
  (exists p args, self' = with_call self p args) \/
  (exists data_type f,
     dict_get data_type CALCULATOR_FUNCTION_MAP = Some f /\
     dict_get data_type (_calculator_funcs self) = None /\
     self' = with_binding self data_type f).
Proof.
  intros [key s r s' Hrun | p args s v s' Hrun].
  - pose proof (get_calculator_func_cases key s) as Hcases.
    destruct (get_data_type key) as [data_type|].
    + destruct (dict_get data_type (_calculator_funcs s)) as [p|] eqn:Ecache.
      * left. congruence.
      * destruct Hcases as (f & Hf & Hrun'). right. right.
        exists data_type, f. repeat split; congruence.
    + left. congruence.
  - right. left. exists p, args. rewrite invoke_eq in Hrun. congruence.
Qed.

Lemma session_inv_step self self' :
  step self self' -> session_inv self -> session_inv self'.
Proof.
  intros Hstep Hinv.
  destruct (step_cases _ _ Hstep)
    as [-> | [(p & args & ->) | (data_type & f & Hf & Hfresh & ->)]].
  - assumption.
  - now apply session_inv_call.
  - now apply session_inv_binding.
Qed.

Lemma cache_kept_step self self' : step self self' -> cache_kept self self'.
Proof.
  intros Hstep.
  destruct (step_cases _ _ Hstep)
    as [-> | [(p & args & ->) | (data_type & f & Hf & Hfresh & ->)]].
  - now intros ? ?.
  - now intros ? ?.
  - now apply cache_kept_binding.
Qed.

Lemma session_holds_inv self : session self -> session_inv self.
Proof.
  induction 1 as [payload ius ous | self self' _ IH Hstep].
  - apply session_inv_init.
  - now apply (session_inv_step self).
Qed.

Lemma steps_session self self' :
  steps self self' -> session self -> session self' /\ cache_kept self self'.
Proof.
  induction 1 as [self | self self' self'' _ IH Hstep]; intros Hs.
  - split; [assumption | now intros ? ?].
  - destruct (IH Hs) as [Hs' Hkept]. split.
    + now apply (session_step self').
    + intros data_type p Hp. apply (cache_kept_step _ _ Hstep), Hkept, Hp.
Qed.

Lemma inspected_iff_cached self data_type f :
  session_inv self ->
  dict_get data_type CALCULATOR_FUNCTION_MAP = Some f ->
  In f (inspections (events self)) <->
  dict_get data_type (_calculator_funcs self) <> None.
Proof.
  intros (Hnd & Hins & Hall) Hf. rewrite Hins, in_map_iff. split.
  - intros ([k p] & <- & Hin). cbn [snd] in Hf.
    rewrite Forall_forall in Hall. destruct (Hall _ Hin) as [Hk _].
    cbn [fst snd] in Hk. apply registered_name_spec in Hk, Hf.
    rewrite dict_get_In. apply (in_map fst) in Hin. cbn [fst] in Hin.
    replace data_type with k by congruence. exact Hin.
  - destruct (dict_get data_type (_calculator_funcs self)) as [p|] eqn:Ecache;
      [|congruence]. intros _. exists (data_type, p).
    apply dict_get_entry in Ecache. split; [|assumption].
    rewrite Forall_forall in Hall. destruct (Hall _ Ecache) as [Hk _].
    cbn [fst snd] in *. congruence.
Qed.

Lemma inspections_NoDup self :
  session_inv self -> NoDup (inspections (events self)).
Proof.
  intros (Hnd & Hins & Hall). rewrite Hins.
  apply (NoDup_map_inv registered_name). rewrite map_map.
  erewrite map_ext_in; [exact Hnd|].
  intros [k p] Hin. rewrite Forall_forall in Hall.
  destruct (Hall _ Hin) as [Hk _]. now apply registered_name_spec.
Qed.

Lemma steps_trans self self' self'' :
  steps self self' -> steps self' self'' -> steps self self''.
Proof.
  intros H1 H2. induction H2 as [|s s' s'' _ IH Hstep]; [assumption|].
  eapply steps_step; [now apply IH | exact Hstep].
Qed.

Lemma steps_one self self' : step self self' -> steps self self'.
Proof. intros Hstep. eapply steps_step; [apply steps_refl | exact Hstep]. Qed.

(** One round of the first loop is a request, and a call if the request
    yields a calculator. *)
Lemma translate_item_steps (t : dict Any) (item : string * string) self :
  steps self (state_of (translate_item t item self)).
Proof.
  destruct item as [key value]. unfold translate_item.
  destruct (list_mem key DEFAULT_KEYS_TO_IGNORE); [apply steps_refl|].
  destruct (request_returns key self) as (r & self1 & Hrun & _).
  unfold bind. rewrite Hrun.
  assert (H1 : steps self self1) by exact (steps_one _ _ (step_request _ _ _ _ Hrun)).
  destruct r as [p|]; [|exact H1].
  rewrite invoke_eq. cbn [ret state_of].
  eapply steps_step; [exact H1|].
  exact (step_invoke p _ self1 _ _ (invoke_eq p _ self1)).
Qed.

Lemma payload_values_state (payload : dict string) (input_keys : list string) self :
  state_of (comprehension (fun k => getitem k payload) input_keys self) = self.
Proof.
  destruct (comprehension (fun k => getitem k payload) input_keys self)
    as [raws self'|e self'] eqn:E.
  - now apply payload_values_Ok in E as [-> _].
  - now apply payload_values_Raise in E as [-> _].
Qed.

Lemma derive_item_steps (t calc : dict Any) (item : string * list string) self :
  steps self (state_of (derive_item t calc item self)).
Proof.
  destruct item as [target input_keys]. unfold derive_item.
  destruct (negb _); [apply steps_refl|].
  destruct (request_returns target self) as (r & self1 & Hrun & _).
  unfold bind at 1. rewrite Hrun.
  assert (H1 : steps self self1) by exact (steps_one _ _ (step_request _ _ _ _ Hrun)).
  destruct r as [p|]; [|exact H1].
  unfold bind at 1. unfold gets at 1. unfold bind at 1.
  pose proof (payload_values_state (_payload self1) input_keys self1) as Hstate.
  destruct (comprehension _ input_keys self1) as [raws self2|e self2];
    cbn [state_of] in Hstate; subst self2; [|exact H1].
  unfold bind. rewrite invoke_eq. cbn [ret state_of].
  eapply steps_step; [exact H1|].
  exact (step_invoke p _ self1 _ _ (invoke_eq p _ self1)).
Qed.

Lemma for_each_steps {A S} (body : S -> A -> M S) :
  (forall acc x self, steps self (state_of (body acc x self))) ->
  forall (l : list A) (acc : S) self,
    steps self (state_of (for_each body acc l self)).
Proof.
  intros Hbody l. induction l as [|x l IH]; intros acc self; cbn [for_each].
  - apply steps_refl.
  - unfold bind. specialize (Hbody acc x self).
    destruct (body acc x self) as [acc' self'|e self']; cbn [state_of] in *.
    + eapply steps_trans; [exact Hbody | apply IH].
    + exact Hbody.
Qed.

(** All [generate_data] does to [self] is a sequence of requests for
    calculators and of calls of them. *)
Lemma generate_data_steps self : steps self (state_of (generate_data self)).
Proof.
  unfold generate_data, bind.
  pose proof (for_each_steps translate_item translate_item_steps
                (_payload self) [] self) as H1.
  unfold translate at 1. unfold bind at 1. unfold gets at 1.
  destruct (for_each translate_item [] (_payload self) self)
    as [t self1|e self1]; cbn [state_of] in H1; [|exact H1].
  pose proof (for_each_steps (derive_item t) (derive_item_steps t)
                DERIVED_METRICS [] self1) as H2.
  unfold derive.
  destruct (for_each (derive_item t) [] DERIVED_METRICS self1)
    as [calc self2|e self2]; cbn [state_of ret] in *;
    eapply steps_trans; eassumption.
Qed.

(** C6.  Throughout a session no signature is inspected twice.  A request
    for a key that resolves to a data type the cache does not hold is the
    first for that data type: the signature of its calculator, not
    inspected before, is inspected, and a new partial object, which binds
    the calculator to the unit systems of the session, is made, stored
    under the data type and returned.  A request for a key that resolves
    to a data type the cache holds returns the stored object and changes
    nothing.  Whatever the session does next, [generate_data] included, a
    stored object stays where it is. *)
Theorem calculator_bound_once self :
  session self ->
  NoDup (inspections (events self)) /\
  (forall key data_type,
     get_data_type key = Some data_type ->
     exists f,
       dict_get data_type CALCULATOR_FUNCTION_MAP = Some f /\
       match dict_get data_type (_calculator_funcs self) with
       | None =>
           ~ In f (inspections (events self)) /\
           exists p self',
             _get_calculator_func key self = Ok (Some p) self' /\
             func p = f /\
             keywords p =
               bound_keywords f (_input_unit_system self)
                 (_output_unit_system self) /\
             (forall data_type' p',
                dict_get data_type' (_calculator_funcs self) = Some p' ->
                ident p' <> ident p) /\
             events self' = (events self ++ [Inspect f])%list /\
             _calculator_funcs self' =
               dict_set data_type p (_calculator_funcs self)
       | Some p =>
           In f (inspections (events self)) /\
           func p = f /\
           keywords p =
             bound_keywords f (_input_unit_system self)
               (_output_unit_system self) /\
           _get_calculator_func key self = Ok (Some p) self
       end) /\
  (forall self',
     steps self self' ->
     session self' /\
     forall data_type p,
       dict_get data_type (_calculator_funcs self) = Some p ->
       dict_get data_type (_calculator_funcs self') = Some p) /\
  steps self (state_of (generate_data self)).
Proof.
  intros Hs. pose proof (session_holds_inv self Hs) as Hinv.
  split; [now apply inspections_NoDup|]. split.
  - intros key data_type Etype.
    destruct (registered_calculator data_type) as [_ [f Hf]];
      [now apply (get_data_type_registered key)|].
    exists f. split; [assumption|].
    pose proof (get_calculator_func_cases key self) as Hcases.
    pose proof (inspected_iff_cached self data_type f Hinv Hf) as Hiff.
    rewrite Etype in Hcases.
    destruct Hinv as (_ & _ & Hall). rewrite Forall_forall in Hall.
    destruct (dict_get data_type (_calculator_funcs self)) as [p|] eqn:Ecache.
    + split; [apply Hiff; discriminate|].
      destruct (Hall _ (dict_get_entry _ _ _ Ecache)) as (Hk & Hkw & _).
      cbn [fst snd] in Hk, Hkw.
      assert (Hfunc : func p = f) by congruence.
      split; [assumption|]. split; [now rewrite <- Hfunc | assumption].
    + split; [rewrite Hiff; tauto|].
      destruct Hcases as (f' & Hf' & Hrun).
      assert (f' = f) by congruence. subst f'.
      exists (fresh_partial self f), (with_binding self data_type f).
      split; [assumption|]. split; [reflexivity|]. split; [reflexivity|].
      split; [|split; reflexivity].
      intros data_type' p' Hp'.
      destruct (Hall _ (dict_get_entry _ _ _ Hp')) as (_ & _ & Hlt).
      cbn [fresh_partial ident snd] in *. lia.
  - split; [|apply generate_data_steps].
    intros self' Hsteps. now apply steps_session.
Qed.

(** ** The scenario of the design document *)

(** C3.  On the payload of the scenario [generate_data] returns, whatever
    the calculators and the unit systems, and the keys of the output are
    [temp], [humidity] and [windspeed]: the first loop stores [tempf]
    under [temp], so the second loop finds no [tempf] among the
    translated keys and computes none of the four derived metrics. *)
Theorem scenario_has_no_derived_metric (ius ous : string) :
  option_map dict_keys
    (returned
       (run [("PASSKEY", "AB"); ("tempf", "77.4"); ("humidity", "54");
             ("windspeedmph", "4.0")] ius ous)) =
  Some ["temp"; "humidity"; "windspeed"].
Proof. vm_compute. reflexivity. Qed.

(** C4.  [generate_data] raises [KeyError] on a payload in which [tempff]
    is stored under [tempf]: the second loop then finds both input keys of
    the dew point among the translated keys and looks [tempf] up in the
    raw payload, which has no such key. *)
Theorem generate_data_raises (ius ous : string) :
  raised (run [("tempff", "70"); ("humidity", "50")] ius ous) =
  Some (KeyError "tempf").
Proof. vm_compute. reflexivity. Qed.

(** C5.  On a payload that holds [tempf] and [humidity], stores [tempff]
    under [tempf] and stores [windspeedmphf] under [windspeedmph], the
    input keys of the heat index are keys of the translated mapping and of
    the raw payload, and still its calculator is not called: the second
    loop calls the dew point's calculator and then raises [KeyError] on
    the feels-like metric, whose input key [windspeedmph] is a translated
    key and no raw key. *)
Theorem heat_index_not_called (ius ous : string) :
  let payload :=
    [("tempf", "77"); ("tempff", "70"); ("humidity", "50");
     ("windspeedmphf", "4")] in
  option_map (fun t => (dict_keys t, gate t HEAT_INDEX_KEYS))
    (returned (translate (init payload ius ous))) =
    Some (["temp"; "tempf"; "humidity"; "windspeedmph"], true) /\
  forallb (fun k => dict_mem k payload) HEAT_INDEX_KEYS = true /\
  raised (run payload ius ous) = Some (KeyError "windspeedmph") /\
  map (fun c => fst (fst c)) (calls (events (state_of (run payload ius ous)))) =
    [calculate_temperature; calculate_temperature; calculate_wind_speed;
     calculate_dew_point].
Proof.
  intros payload. repeat split; vm_compute; reflexivity.
Qed.

(** X1.  When [generate_data] returns.  The first loop returns for every
    payload; the run returns exactly when, for every derived metric whose
    input keys are all keys of the translated mapping, those input keys
    are keys of the raw payload too; and a run that does not return
    raises [KeyError] for an input key that the raw payload lacks. *)
Theorem generate_data_returns_iff (payload : dict string) (ius ous : string) :
  exists t self1,
    translate (init payload ius ous) = Ok t self1 /\
    (returns (run payload ius ous) = true <->
     forall item, In item DERIVED_METRICS ->
       (forall k, In k (snd item) -> In k (dict_keys t)) ->
       forall k, In k (snd item) -> In k (dict_keys payload)) /\
    (forall e, raised (run payload ius ous) = Some e ->
       exists item k,
         In item DERIVED_METRICS /\
         (forall k', In k' (snd item) -> In k' (dict_keys t)) /\
         In k (snd item) /\ ~ In k (dict_keys payload) /\ e = KeyError k).
Proof.
  destruct (run_cases payload ius ous) as (self1 & Ht & Hok & Hcfg & Hrun).
  exists (translated_from ius ous [] payload), self1.
  split; [assumption|]. split.
  - rewrite run_returns_iff.
    split; intros Hall item Hin Hgate; apply (Hall item Hin);
      now apply gate_spec.
  - intros e He. rewrite Hrun in He.
    destruct (derive (translated_from ius ous [] payload) self1)
      as [calc self2|e' self2] eqn:Hderive; [discriminate|].
    injection He as ->.
    apply derive_loop_Raise in Hderive
      as (done & item & rest & cs & Especs & Hgate & (k & Hk & Hnone & ->) & _);
      [| assumption | apply derived_metrics_registered].
    destruct Hcfg as (_ & _ & Epayload & _). cbn [init _payload] in Epayload.
    rewrite Epayload in Hnone. apply dict_get_None in Hnone.
    exists item, k. split; [rewrite Especs; apply in_elt|].
    split; [now apply gate_spec|]. now repeat split.
Qed.

End EngineFacts.

(** * Closed instances *)

(** The statements above at given payloads, for the runtime and the
    calculators of [Stub], with imperial units in and out. *)
#[local] Existing Instance Stub.runtime.
#[local] Existing Instance Stub.calculators.

(** C2 at a payload that holds [tempf] and [humidity] and stores [tempff]
    under [tempf]: the dew point is in the output, with the value of its
    calculator on the raw values. *)
Lemma derived_metric_gating_witness :
  let payload := [("tempf", "77"); ("tempff", "70"); ("humidity", "50")] in
  exists t self1 out self2,
    translate (init payload UNIT_SYSTEM_IMPERIAL UNIT_SYSTEM_IMPERIAL) =
      Ok t self1 /\
    run payload UNIT_SYSTEM_IMPERIAL UNIT_SYSTEM_IMPERIAL = Ok out self2 /\
    (forall k, In k DEW_POINT_KEYS -> In k (dict_keys t)) /\
    exists v,
      derived_value payload UNIT_SYSTEM_IMPERIAL UNIT_SYSTEM_IMPERIAL
        (DATA_POINT_DEWPOINT, DEW_POINT_KEYS) v /\
      dict_get DATA_POINT_DEWPOINT out = Some v.
Proof.
  intros payload.
  destruct (translate_returns payload UNIT_SYSTEM_IMPERIAL UNIT_SYSTEM_IMPERIAL)
    as (self1 & Ht & _).
  destruct (returns_Ok (run payload UNIT_SYSTEM_IMPERIAL UNIT_SYSTEM_IMPERIAL))
    as (out & self2 & Hrun); [vm_compute; reflexivity|].
  exists (translated_from UNIT_SYSTEM_IMPERIAL UNIT_SYSTEM_IMPERIAL [] payload),
    self1, out, self2.
  split; [exact Ht|]. split; [exact Hrun|].
  assert (Hgate : gate (translated_from UNIT_SYSTEM_IMPERIAL
                          UNIT_SYSTEM_IMPERIAL [] payload) DEW_POINT_KEYS = true)
    by (vm_compute; reflexivity).
  pose proof (proj1 (gate_spec _ _) Hgate) as Hall. split; [exact Hall|].
  destruct (derived_metric_gating payload UNIT_SYSTEM_IMPERIAL
              UNIT_SYSTEM_IMPERIAL _ _ _ _ Ht Hrun) as [_ Hmetrics].
  apply (Hmetrics DATA_POINT_DEWPOINT DEW_POINT_KEYS).
  - now left.
  - exact Hall.
Defined.

(** C2 fails as stated at the payload [windchillf]: the key resolves to
    the wind family and is stored under [windchill], so [windchill] is the
    one key of the translated mapping and of the output, although [tempf],
    an input key of the wind chill, is no key of the translated mapping. *)
Lemma wind_chill_without_inputs :
  let payload := [("windchillf", "5")] in
  In (DATA_POINT_WINDCHILL, WIND_CHILL_KEYS) DERIVED_METRICS /\
  In DATA_POINT_TEMPF WIND_CHILL_KEYS /\
  option_map dict_keys
    (returned (translate
                 (init payload UNIT_SYSTEM_IMPERIAL UNIT_SYSTEM_IMPERIAL))) =
    Some ["windchill"] /\
  option_map dict_keys
    (returned (run payload UNIT_SYSTEM_IMPERIAL UNIT_SYSTEM_IMPERIAL)) =
    Some [DATA_POINT_WINDCHILL].
Proof.
  intros payload.
  split; [do 3 right; now left|]. split; [now left|].
  split; vm_compute; reflexivity.
Qed.

(** X2 at the same payload as C2. *)
Lemma derived_calls_in_order_witness :
  let payload := [("tempf", "77"); ("tempff", "70"); ("humidity", "50")] in
  exists t self1 done rest cs,
    translate (init payload UNIT_SYSTEM_IMPERIAL UNIT_SYSTEM_IMPERIAL) =
      Ok t self1 /\
    filter (fun item => gate t (snd item)) DERIVED_METRICS = (done ++ rest)%list /\
    calls (events (state_of
                     (run payload UNIT_SYSTEM_IMPERIAL UNIT_SYSTEM_IMPERIAL))) =
      (calls (events self1) ++ cs)%list /\
    Forall2
      (derived_call payload UNIT_SYSTEM_IMPERIAL UNIT_SYSTEM_IMPERIAL) done cs.
Proof.
  intros payload.
  destruct (translate_returns payload UNIT_SYSTEM_IMPERIAL UNIT_SYSTEM_IMPERIAL)
    as (self1 & Ht & _).
  destruct (derived_calls_in_order payload UNIT_SYSTEM_IMPERIAL
              UNIT_SYSTEM_IMPERIAL _ _ Ht)
    as (done & rest & cs & Eopened & Hcalls & Hcs & _).
  exists (translated_from UNIT_SYSTEM_IMPERIAL UNIT_SYSTEM_IMPERIAL [] payload),
    self1, done, rest, cs.
  split; [exact Ht|]. split; [exact Eopened|]. split; assumption.
Defined.

(** C7 at the key [humidity] of a payload in which no later key is stored
    under [humidity]. *)
Lemma pass_through_witness :
  let payload := [("model", "GW1000"); ("humidity", "54"); ("tempf", "77.4")] in
  exists out self2,
    run payload UNIT_SYSTEM_IMPERIAL UNIT_SYSTEM_IMPERIAL = Ok out self2 /\
    ignored "humidity" = false /\
    get_data_type "humidity" = None /\
    dict_get "humidity" out = Some (coerce "54").
Proof.
  intros payload.
  destruct (returns_Ok (run payload UNIT_SYSTEM_IMPERIAL UNIT_SYSTEM_IMPERIAL))
    as (out & self2 & Hrun); [vm_compute; reflexivity|].
  exists out, self2. split; [exact Hrun|].
  assert (Hign : ignored "humidity" = false) by (vm_compute; reflexivity).
  assert (Htype : get_data_type "humidity" = None) by (vm_compute; reflexivity).
  split; [exact Hign|]. split; [exact Htype|].
  apply (pass_through payload UNIT_SYSTEM_IMPERIAL UNIT_SYSTEM_IMPERIAL
           [("model", "GW1000")] "humidity" "54" [("tempf", "77.4")] out self2).
  - reflexivity.
  - exact Hign.
  - exact Htype.
  - intros raw [<- | []]. vm_compute. discriminate.
  - exact Hrun.
Defined.

(** C7 fails as stated at the key [ra] of a payload that also holds
    [rain]: no data type resolves for [ra], [rain] is stored under [ra]
    after it, and the output holds under [ra] what the rain calculator
    returned for the value of [rain] (here that value itself), not the
    coerced value of [ra]. *)
Lemma pass_through_overwritten :
  let payload := [("ra", "1"); ("rain", "2")] in
  ignored "ra" = false /\
  get_data_type "ra" = None /\
  dict_get "ra" payload = Some "1" /\
  option_map (dict_get "ra")
    (returned (run payload UNIT_SYSTEM_IMPERIAL UNIT_SYSTEM_IMPERIAL)) =
    Some (Some (coerce "2")) /\
  coerce "2" <> coerce "1".
Proof.
  intros payload.
  split; [vm_compute; reflexivity|]. split; [vm_compute; reflexivity|].
  split; [vm_compute; reflexivity|]. split; [vm_compute; reflexivity|].
  replace (coerce "2") with (VFloat (Qmake 2 1)) by (vm_compute; reflexivity).
  replace (coerce "1") with (VFloat (Qmake 1 1)) by (vm_compute; reflexivity).
  intros [= H].
Qed.

(** C9 fails as stated at a payload that holds [temp] and [tempf]: both
    keys are kept, both are stored under [temp], and the translated
    mapping has one entry. *)
Lemma two_raw_keys_one_entry :
  let payload := [("temp", "1"); ("tempf", "2")] in
  kept payload = ["temp"; "tempf"] /\
  option_map dict_keys
    (returned (translate
                 (init payload UNIT_SYSTEM_IMPERIAL UNIT_SYSTEM_IMPERIAL))) =
    Some ["temp"].
Proof.
  intros payload. split; vm_compute; reflexivity.
Qed.

(** C6 after a first request, for [tempf]: the session holds a binding
    for the temperature family, and a request for [tempinf], which
    resolves to the same data type, returns the same object and changes
    nothing. *)
Lemma calculator_bound_once_witness :
  exists p self1,
    _get_calculator_func "tempf"
      (init [] UNIT_SYSTEM_IMPERIAL UNIT_SYSTEM_IMPERIAL) = Ok (Some p) self1 /\
    session self1 /\
    get_data_type "tempinf" = Some DATA_POINT_GLOB_TEMP /\
    _get_calculator_func "tempinf" self1 = Ok (Some p) self1 /\
    NoDup (inspections (events self1)).
Proof.
  set (self0 := init [] UNIT_SYSTEM_IMPERIAL UNIT_SYSTEM_IMPERIAL).
  assert (E1 : get_data_type "tempf" = Some DATA_POINT_GLOB_TEMP)
    by (vm_compute; reflexivity).
  assert (E2 : get_data_type "tempinf" = Some DATA_POINT_GLOB_TEMP)
    by (vm_compute; reflexivity).
  destruct (calculator_bound_once self0 (session_init [] _ _))
    as (_ & Hfirst & _ & _).
  destruct (Hfirst "tempf" DATA_POINT_GLOB_TEMP E1) as (f & Hf & Hcase).
  cbn [self0 init _calculator_funcs dict_get] in Hcase.
  destruct Hcase as (_ & p & self1 & Hrun & _ & _ & _ & _ & Ecache).
  fold self0 in Hrun. exists p, self1. split; [exact Hrun|].
  assert (Hs : session self1).
  { apply (session_step self0); [apply session_init|].
    exact (step_request "tempf" self0 _ _ Hrun). }
  split; [exact Hs|]. split; [exact E2|].
  destruct (calculator_bound_once self1 Hs) as (Hnd & Hrequest & _ & _).
  split; [|exact Hnd].
  destruct (Hrequest "tempinf" DATA_POINT_GLOB_TEMP E2) as (f' & _ & Hcase).
  rewrite Ecache in Hcase. cbn [dict_set dict_get] in Hcase.
  rewrite String.eqb_refl in Hcase. now destruct Hcase as (_ & _ & _ & Hrun').
Defined.

(** * Further properties *)

(** ** The resolver and the normalizer on their own *)

Lemma Substring_length (k s : string) :
  Substring k s -> String.length k <= String.length s.
Proof.
  intros (a & b & ->). rewrite !length_append. lia.
Qed.

Lemma Substring_trans (a b c : string) :
  Substring a b -> Substring b c -> Substring a c.
Proof.
  intros (a1 & a2 & ->) (b1 & b2 & ->).
  exists (b1 ++ a1), (a2 ++ b2).
  induction b1 as [|x b1 IH]; simpl.
  - induction a1 as [|y a1 IH]; simpl.
    + induction a as [|z a IH]; simpl; [reflexivity | now rewrite IH].
    + now rewrite IH.
  - now rewrite IH.
Qed.

Lemma get_data_type_None_iff (key : string) :
  get_data_type key = None <-> forall k, In k registry -> ~ Substring k key.
Proof.
  split.
  - intros E. pose proof (get_data_type_resolves key) as Hr. rewrite E in Hr.
    now inversion Hr.
  - intros Hnone. apply resolves_functional. now apply resolves_none.
Qed.

Lemma get_data_type_Some_occurs (key data_type : string) :
  get_data_type key = Some data_type ->
  In data_type registry /\ Substring data_type key.
Proof.
  intros E. split; [now apply (get_data_type_registered key)|].
  pose proof (get_data_type_resolves key) as Hr. rewrite E in Hr.
  inversion Hr; subst; [apply Substring_refl | assumption].
Qed.

(** X3.  Whether a data type resolves depends only on what occurs in the
    key: [get_data_type] finds no match exactly when no registered
    identifier occurs in the key, and a data type it returns is a
    registered identifier that occurs in the key. *)
Theorem get_data_type_occurs (key : string) :
  (get_data_type key = None <->
   forall k, In k registry -> ~ Substring k key) /\
  (forall data_type,
     get_data_type key = Some data_type ->
     In data_type registry /\ Substring data_type key).
Proof.
  split; [apply get_data_type_None_iff|].
  intros data_type. apply get_data_type_Some_occurs.
Qed.

(** X4.  A key of fewer than four characters resolves to no data type,
    the empty key included: every registered identifier has four
    characters at least. *)
Theorem short_key_unresolved (key : string) :
  String.length key < 4 -> get_data_type key = None.
Proof.
  intros Hshort. apply resolves_functional, resolves_none.
  intros k Hk Hsub. apply Substring_length in Hsub.
  vm_compute in Hk.
  repeat (destruct Hk as [<- | Hk]; [simpl in Hsub; lia|]).
  destruct Hk.
Qed.

(** X5.  The entry [windchill] of the registry is reached by the exact key
    only: [wind] is declared before it and occurs in it, so any other key
    in which [windchill] occurs resolves to an identifier declared
    earlier. *)
Theorem windchill_only_exact (key : string) :
  (get_data_type key = Some DATA_POINT_WINDCHILL <->
   key = DATA_POINT_WINDCHILL) /\
  (Substring DATA_POINT_WINDCHILL key -> key <> DATA_POINT_WINDCHILL ->
   exists data_type,
     get_data_type key = Some data_type /\
     data_type <> DATA_POINT_WINDCHILL /\
     Substring data_type key).
Proof.
  assert (Hiff : get_data_type key = Some DATA_POINT_WINDCHILL <->
                 key = DATA_POINT_WINDCHILL).
  { split; [|intros ->; reflexivity].
    intros E. pose proof (get_data_type_resolves key) as Hr. rewrite E in Hr.
    inversion Hr as [Hin | before k after Hnot Esplit Hsub Hbefore |]; subst.
    - reflexivity.
    - exfalso. apply (Hbefore DATA_POINT_GLOB_WIND).
      + unfold registry in Esplit. cbn in Esplit.
        do 8 (destruct before as [|? before]; cbn in Esplit;
              [discriminate Esplit | injection Esplit as <- Esplit]).
        simpl. tauto.
      + apply (Substring_trans _ DATA_POINT_WINDCHILL); [|assumption].
        now exists "", "chill". }
  split; [exact Hiff|].
  intros Hsub Hne.
  destruct (get_data_type key) as [data_type|] eqn:E.
  - exists data_type. split; [reflexivity|]. split.
    + intros ->. now apply Hne, Hiff.
    + now apply (get_data_type_Some_occurs key).
  - exfalso. apply (proj1 (get_data_type_None_iff key) E
                      DATA_POINT_WINDCHILL); [vm_compute; tauto | assumption].
Qed.

(** X6.  [de_unit_key] returns a prefix of the key: the key is the result
    followed by nothing or by one of [f], [in], [mph], so the result is
    shorter than the key by three characters at most, and the key comes
    back unchanged exactly when it ends in none of the three. *)
Theorem de_unit_key_prefix (key : string) :
  (exists suffix,
     In suffix [""; "f"; "in"; "mph"] /\ key = de_unit_key key ++ suffix) /\
  String.length (de_unit_key key) <= String.length key <=
    String.length (de_unit_key key) + 3 /\
  (de_unit_key key = key <->
   ~ Suffix "f" key /\ ~ Suffix "in" key /\ ~ Suffix "mph" key).
Proof.
  assert (Hsuffix : exists suffix,
    In suffix [""; "f"; "in"; "mph"] /\ key = de_unit_key key ++ suffix).
  { destruct (de_unit_key_inv key) as [E | [E | [E | E]]].
    - exists "". split; [simpl; tauto | now rewrite append_empty_r].
    - exists "f". split; [simpl; tauto | assumption].
    - exists "in". split; [simpl; tauto | assumption].
    - exists "mph". split; [simpl; tauto | assumption]. }
  split; [exact Hsuffix|]. split.
  - destruct Hsuffix as (suffix & Hin & E).
    apply (f_equal String.length) in E. rewrite length_append in E.
    simpl in Hin. destruct Hin as [<- | [<- | [<- | [<- | []]]]]; simpl in E; lia.
  - split.
    + intros E. repeat split; intros [b Hb]; subst key.
      * rewrite de_unit_key_f in E. apply (f_equal String.length) in E.
        rewrite length_append in E. simpl in E. lia.
      * rewrite de_unit_key_in in E. apply (f_equal String.length) in E.
        rewrite length_append in E. simpl in E. lia.
      * rewrite de_unit_key_mph in E. apply (f_equal String.length) in E.
        rewrite length_append in E. simpl in E. lia.
    + intros (Hf & Hin & Hmph). now apply de_unit_key_other.
Qed.

(** ** The outcome of a run *)

Section OutcomeFacts.
Context {R : Runtime} {C : Calculators}.
Implicit Types (self : DataProcessor).

Lemma payload_values_outcome (payload : dict string) (input_keys : list string)
    self :
  comprehension (fun k => getitem k payload) input_keys self =
  match lookup_all payload input_keys with
  | inr raws => Ok raws self
  | inl e => Raise e self
  end.
Proof.
  induction input_keys as [|k input_keys IH]; cbn [comprehension lookup_all];
    [reflexivity|].
  unfold bind at 1. unfold getitem at 1.
  destruct (dict_get k payload) as [raw|]; [|reflexivity].
  cbn [ret]. unfold bind at 1. rewrite IH.
  now destruct (lookup_all payload input_keys).
Qed.

Lemma derive_item_outcome (t calc : dict Any) (item : string * list string) self :
  cache_ok self -> In (fst item) registry ->
  exists self',
    cache_ok self' /\ same_config self self' /\
    derive_item t calc item self =
    match derive_step (_payload self) (_input_unit_system self)
            (_output_unit_system self) t calc item with
    | inr calc' => Ok calc' self'
    | inl e => Raise e self'
    end.
Proof.
  intros Hok Hreg. destruct item as [target input_keys]. cbn [fst snd] in *.
  unfold derive_item, derive_step. cbn [fst snd]. fold (gate t input_keys).
  destruct (gate t input_keys); cbn [negb].
  2:{ exists self. split; [assumption|]. split; [apply same_config_refl | reflexivity]. }
  destruct (request_returns target self)
    as (r & self1 & Hrun & Hnone & Hcfg & _ & _ & Hbound).
  destruct (Hbound Hok) as [Hok1 Hp]. clear Hbound.
  unfold bind at 1. rewrite Hrun.
  destruct r as [p|].
  2:{ rewrite (get_data_type_exact target Hreg) in Hnone.
      destruct Hnone as [Hnone _]. discriminate (Hnone eq_refl). }
  destruct (Hp p eq_refl) as (data_type & f & Etype & Hf & Hfunc & Hkw).
  rewrite (get_data_type_exact target Hreg) in Etype. injection Etype as <-.
  rewrite Hf. unfold bind at 1. unfold gets at 1. unfold bind at 1.
  rewrite payload_values_outcome.
  pose proof Hcfg as (Eius & Eous & Epayload & _). rewrite Epayload.
  destruct (lookup_all (_payload self) input_keys) as [e|raws].
  - exists self1. split; [assumption|]. split; [assumption | reflexivity].
  - exists (with_call self1 p (map VStr raws)).
    split; [now apply cache_ok_call|].
    split; [eapply same_config_trans; [eassumption | apply same_config_call]|].
    unfold bind. rewrite invoke_eq. cbn [ret]. now rewrite Hfunc, Hkw.
Qed.

Lemma derive_outcome (t : dict Any) (specs : list (string * list string)) :
  forall (calc : dict Any) self,
  cache_ok self ->
  (forall item, In item specs -> In (fst item) registry) ->
  outcome (for_each (derive_item t) calc specs self) =
  derived_from (_payload self) (_input_unit_system self)
    (_output_unit_system self) t specs calc.
Proof.
  induction specs as [|item specs IH]; intros calc self Hok Hreg; [reflexivity|].
  cbn [for_each derived_from]. unfold bind.
  destruct (derive_item_outcome t calc item self Hok (Hreg item (or_introl eq_refl)))
    as (self' & Hok' & (Eius & Eous & Epayload & _) & ->).
  destruct (derive_step _ _ _ t calc item) as [e|calc']; [reflexivity|].
  rewrite IH; [| assumption | intros item' Hin; apply Hreg; now right].
  now rewrite Eius, Eous, Epayload.
Qed.

(** What [generate_data] comes to, from any state whose cache is sound, is
    a function of the payload and of the two unit systems. *)
Lemma generate_data_outcome self :
  cache_ok self ->
  outcome (generate_data self) =
  output_of (_payload self) (_input_unit_system self) (_output_unit_system self).
Proof.
  intros Hok. unfold generate_data, output_of, translate.
  unfold bind at 1. unfold bind at 1. unfold gets at 1.
  destruct (translate_loop (_payload self) [] self Hok)
    as (self1 & -> & Hok1 & (Eius & Eous & Epayload & _)).
  unfold bind. unfold derive.
  pose proof (derive_outcome
                (translated_from (_input_unit_system self)
                   (_output_unit_system self) [] (_payload self))
                DERIVED_METRICS [] self1 Hok1 derived_metrics_registered) as H.
  rewrite Eius, Eous, Epayload in H. cbv zeta. rewrite <- H.
  destruct (for_each
              (derive_item
                 (translated_from (_input_unit_system self)
                    (_output_unit_system self) [] (_payload self)))
              [] DERIVED_METRICS self1); reflexivity.
Qed.

Lemma cache_ok_step self self' : step self self' -> cache_ok self -> cache_ok self'.
Proof.
  intros Hstep Hok.
  destruct (step_cases _ _ Hstep)
    as [-> | [(p & args & ->) | (data_type & f & Hf & Hfresh & ->)]].
  - assumption.
  - now apply cache_ok_call.
  - now apply cache_ok_binding.
Qed.

Lemma same_config_step self self' : step self self' -> same_config self self'.
Proof.
  intros Hstep.
  destruct (step_cases _ _ Hstep)
    as [-> | [(p & args & ->) | (data_type & f & Hf & Hfresh & ->)]].
  - apply same_config_refl.
  - apply same_config_call.
  - apply same_config_binding.
Qed.

Lemma steps_frame self self' :
  steps self self' ->
  same_config self self' /\ cache_kept self self' /\
  (cache_ok self -> cache_ok self').
Proof.
  induction 1 as [self | self self' self'' _ (Hcfg & Hkept & Hok) Hstep].
  - split; [apply same_config_refl|]. split; [now intros ? ? | trivial].
  - split; [eapply same_config_trans; [eassumption | now apply same_config_step]|].
    split.
    + intros data_type p Hp. apply (cache_kept_step _ _ Hstep), Hkept, Hp.
    + intros H0. apply (cache_ok_step _ _ Hstep), Hok, H0.
Qed.

Lemma session_cache_ok self : session self -> cache_ok self.
Proof.
  induction 1 as [payload ius ous | self self' _ IH Hstep].
  - apply cache_ok_init.
  - now apply (cache_ok_step self).
Qed.

(** X7.  A second call of [generate_data] on the same processor comes to
    what the first came to, the same output or the same exception: the
    cache the first call filled does not change the result. *)
Theorem generate_data_again self :
  session self ->
  outcome (generate_data (state_of (generate_data self))) =
  outcome (generate_data self).
Proof.
  intros Hs. pose proof (session_cache_ok self Hs) as Hok.
  destruct (steps_frame _ _ (generate_data_steps self))
    as ((Eius & Eous & Epayload & _) & _ & Hok').
  rewrite (generate_data_outcome _ (Hok' Hok)), (generate_data_outcome _ Hok).
  now rewrite Eius, Eous, Epayload.
Qed.

Lemma translated_from_kept ius ous (payload : dict string) (acc : dict Any) :
  translated_from ius ous acc
    (filter (fun item => negb (ignored (fst item))) payload) =
  translated_from ius ous acc payload.
Proof.
  revert acc. induction payload as [|[key value] payload IH]; intros acc;
    [reflexivity|].
  rewrite translated_from_cons. cbn [filter fst].
  destruct (ignored key) eqn:E; cbn [negb]; [apply IH|].
  rewrite translated_from_cons, E. apply IH.
Qed.

Lemma dict_get_kept (payload : dict string) (k : string) :
  ignored k = false ->
  dict_get k (filter (fun item => negb (ignored (fst item))) payload) =
  dict_get k payload.
Proof.
  intros Hk. induction payload as [|[key value] payload IH]; [reflexivity|].
  cbn [filter fst]. destruct (ignored key) eqn:E; cbn [negb dict_get].
  - destruct (String.eqb_spec k key) as [-> | Hne]; [congruence | exact IH].
  - now rewrite IH.
Qed.

Lemma lookup_all_ext (payload payload' : dict string) (input_keys : list string) :
  (forall k, In k input_keys -> dict_get k payload' = dict_get k payload) ->
  lookup_all payload' input_keys = lookup_all payload input_keys.
Proof.
  induction input_keys as [|k input_keys IH]; intros Hget; [reflexivity|].
  cbn [lookup_all]. rewrite (Hget k) by now left.
  rewrite IH; [reflexivity|]. intros k' Hk'. apply Hget. now right.
Qed.

Lemma derived_from_ext (payload payload' : dict string) ius ous (t : dict Any)
    (specs : list (string * list string)) (calc : dict Any) :
  (forall item k, In item specs -> In k (snd item) ->
     dict_get k payload' = dict_get k payload) ->
  derived_from payload' ius ous t specs calc =
  derived_from payload ius ous t specs calc.
Proof.
  revert calc. induction specs as [|item specs IH]; intros calc Hget;
    [reflexivity|].
  cbn [derived_from]. unfold derive_step.
  rewrite (lookup_all_ext payload payload' (snd item))
    by (intros k Hk; apply (Hget item); [now left | assumption]).
  destruct (gate t (snd item)); [|apply IH; intros i k Hi; apply Hget; now right].
  destruct (dict_get (fst item) CALCULATOR_FUNCTION_MAP);
    [|apply IH; intros i k Hi; apply Hget; now right].
  destruct (lookup_all payload (snd item)); [reflexivity|].
  apply IH. intros i k Hi. apply Hget. now right.
Qed.

(** X8.  The entries under ignored keys have no part in the result: the
    payload and the payload without them come to the same output, or to
    the same exception. *)
Theorem ignored_entries_irrelevant (payload : dict string) (ius ous : string) :
  outcome (run payload ius ous) =
  outcome
    (run (filter (fun item => negb (ignored (fst item))) payload) ius ous).
Proof.
  unfold run. rewrite !generate_data_outcome by apply cache_ok_init.
  cbn [init _payload _input_unit_system _output_unit_system].
  unfold output_of. cbv zeta. rewrite translated_from_kept.
  rewrite (derived_from_ext payload
             (filter (fun item => negb (ignored (fst item))) payload));
    [reflexivity|].
  intros item k Hitem Hk. apply dict_get_kept.
  simpl in Hitem.
  repeat (destruct Hitem as [<- | Hitem];
          [simpl in Hk; repeat (destruct Hk as [<- | Hk]; [reflexivity|]);
           destruct Hk|]).
  destruct Hitem.
Qed.

(** X9.  [generate_data] assigns none of the attributes the constructor
    set: in every run, returning or raising, the payload, the two unit
    systems and the unique id of the processor are afterwards what they
    were, the unique id being the [PASSKEY] of the payload, or [default]
    when there is none; and no binding of the cache is replaced. *)
Theorem generate_data_frame (payload : dict string) (ius ous : string) :
  let self' := state_of (run payload ius ous) in
  _payload self' = payload /\
  _input_unit_system self' = ius /\
  _output_unit_system self' = ous /\
  unique_id self' =
    match dict_get "PASSKEY" payload with
    | Some v => v
    | None => DEFAULT_UNIQUE_ID
    end /\
  forall self,
    same_config self (state_of (generate_data self)) /\
    cache_kept self (state_of (generate_data self)).
Proof.
  cbv zeta. unfold run.
  destruct (steps_frame _ _ (generate_data_steps (init payload ius ous)))
    as ((Eius & Eous & Epayload & Eid) & _ & _).
  split; [exact Epayload|]. split; [exact Eius|]. split; [exact Eous|].
  split; [exact Eid|].
  intros self. destruct (steps_frame _ _ (generate_data_steps self))
    as (Hcfg & Hkept & _).
  now split.
Qed.

(** *** The order of the keys *)

Lemma append_new_set {V} (k : string) (v : V) (d : dict V) :
  dict_keys (dict_set k v d) = append_new [k] (dict_keys d).
Proof. rewrite dict_keys_set. reflexivity. Qed.

Lemma append_new_app (l1 l2 acc : list string) :
  append_new (l1 ++ l2) acc = append_new l2 (append_new l1 acc).
Proof. apply fold_left_app. Qed.

Lemma append_new_fresh (l acc : list string) :
  NoDup l -> (forall k, In k l -> ~ In k acc) ->
  append_new l acc = (acc ++ l)%list.
Proof.
  revert acc. induction l as [|k l IH]; intros acc Hnd Hfresh.
  - simpl. now rewrite app_nil_r.
  - inversion Hnd as [|? ? Hk Hnd']; subst. cbn [append_new fold_left].
    assert (E : list_mem k acc = false).
    { apply not_true_is_false. rewrite list_mem_In. apply Hfresh. now left. }
    rewrite E. fold (append_new l (acc ++ [k])). rewrite IH; [| assumption |].
    + now rewrite <- app_assoc.
    + intros k' Hk' Hin. apply in_app_or in Hin as [Hin | [<- | []]].
      * apply (Hfresh k'); [now right | assumption].
      * contradiction.
Qed.

Lemma translated_from_key_order ius ous (l : dict string) (acc : dict Any) :
  dict_keys (translated_from ius ous acc l) =
  append_new (map translated_key (kept l)) (dict_keys acc).
Proof.
  revert acc. induction l as [|[key value] l IH]; intros acc; [reflexivity|].
  rewrite translated_from_cons, kept_cons, IH.
  destruct (ignored key); [reflexivity|].
  now rewrite append_new_set.
Qed.

Lemma dict_merge_key_order {V} (d1 d2 : dict V) :
  dict_keys (dict_merge d1 d2) = append_new (dict_keys d2) (dict_keys d1).
Proof.
  unfold dict_merge. revert d1.
  induction d2 as [|[k v] d2 IH]; intros d1; [reflexivity|].
  cbn [fold_left fst snd]. rewrite IH, append_new_set. reflexivity.
Qed.

Lemma derived_from_key_order payload ius ous (t : dict Any)
    (specs : list (string * list string)) :
  forall (acc calc : dict Any),
  (forall item, In item specs -> In (fst item) registry) ->
  derived_from payload ius ous t specs acc = inr calc ->
  dict_keys calc =
  append_new (map fst (filter (fun item => gate t (snd item)) specs))
    (dict_keys acc).
Proof.
  induction specs as [|item specs IH]; intros acc calc Hreg E.
  - injection E as <-. reflexivity.
  - cbn [derived_from] in E. unfold derive_step in E. cbn [filter].
    destruct (registered_calculator (fst item)) as [_ [f Hf]];
      [apply Hreg; now left|].
    rewrite Hf in E.
    destruct (gate t (snd item)).
    + destruct (lookup_all payload (snd item)) as [e|raws]; [discriminate|].
      apply IH in E; [|intros i Hi; apply Hreg; now right].
      rewrite E, append_new_set. reflexivity.
    + apply IH in E; [assumption | intros i Hi; apply Hreg; now right].
Qed.

(** X10.  The order of the output.  The keys of the translated mapping
    are the names under which the kept raw keys are stored, in payload
    order, a name that comes again staying where it first came; the
    output lists these keys first, in that order, and after them the
    derived metrics that were computed and are not among them, in the
    order dew point, feels-like, heat index, wind chill. *)
Theorem output_key_order (payload : dict string) (ius ous : string)
    (t : dict Any) self1 (out : dict Any) self2 :
  translate (init payload ius ous) = Ok t self1 ->
  run payload ius ous = Ok out self2 ->
  dict_keys t = append_new (map translated_key (kept payload)) [] /\
  dict_keys out =
    append_new
      (map fst (filter (fun item => gate t (snd item)) DERIVED_METRICS))
      (dict_keys t).
Proof.
  intros Ht Hrun. apply translate_functional in Ht. subst t.
  split; [apply (translated_from_key_order ius ous payload [])|].
  pose proof (generate_data_outcome (init payload ius ous)
                (cache_ok_init payload ius ous)) as Hout.
  fold (run payload ius ous) in Hout. rewrite Hrun in Hout.
  cbn [outcome init _payload _input_unit_system _output_unit_system] in Hout.
  unfold output_of in Hout. cbv zeta in Hout.
  destruct (derived_from payload ius ous (translated_from ius ous [] payload)
              DERIVED_METRICS []) as [e|calc] eqn:Ecalc; [discriminate|].
  injection Hout as ->.
  apply derived_from_key_order in Ecalc; [|apply derived_metrics_registered].
  rewrite dict_merge_key_order, Ecalc. cbn [dict_keys map].
  set (targets := map fst (filter _ DERIVED_METRICS)).
  assert (Hnd : NoDup targets).
  { unfold targets.
    assert (H : forall l : list (string * list string),
              NoDup (map fst l) ->
              NoDup (map fst (filter (fun item =>
                gate (translated_from ius ous [] payload) (snd item)) l))).
    { induction l as [|x l IH]; intros Hl; [constructor|].
      simpl in Hl. inversion Hl as [|? ? Hx Hl']; subst. cbn [filter].
      destruct (gate _ (snd x)); [|now apply IH].
      cbn [map]. constructor; [|now apply IH].
      intros Hin. apply Hx. apply in_map_iff in Hin as (y & Ey & Hy).
      apply filter_In in Hy as [Hy _]. rewrite <- Ey. now apply in_map. }
    apply H, derived_metrics_NoDup. }
  rewrite (append_new_fresh targets []); [reflexivity | assumption |].
  intros k _ [].
Qed.

(** *** The calls of the first loop *)

Lemma translate_item_calls (t : dict Any) (item : string * string) self
    (t' : dict Any) self' :
  cache_ok self ->
  translate_item t item self = Ok t' self' ->
  cache_ok self' /\ same_config self self' /\
  calls (events self') =
    (calls (events self) ++
     translate_calls (_input_unit_system self) (_output_unit_system self)
       [item])%list.
Proof.
  intros Hok. destruct item as [key value].
  unfold translate_item, translate_calls. cbn [flat_map fst snd].
  fold (ignored key). rewrite app_nil_r.
  destruct (ignored key).
  { intros [= <- <-]. split; [assumption|].
    split; [apply same_config_refl | now rewrite app_nil_r]. }
  intros E. apply bind_Ok in E as (r & self1 & Hrun & E).
  destruct (request_returns key self)
    as (r' & self1' & Hrun' & Hnone & Hcfg & _ & Hcalls & Hbound).
  rewrite Hrun in Hrun'. injection Hrun' as <- <-.
  destruct (Hbound Hok) as [Hok1 Hp]. clear Hbound.
  destruct r as [p|].
  - destruct (Hp p eq_refl) as (data_type & f & Etype & Hf & Hfunc & Hkw).
    apply bind_Ok in E as (output & self2 & Hinvoke & E).
    rewrite invoke_eq in Hinvoke. injection Hinvoke as <- <-.
    injection E as <- <-.
    split; [now apply cache_ok_call|].
    split; [eapply same_config_trans; [eassumption | apply same_config_call]|].
    cbn [with_call events]. rewrite calls_app, Hcalls, Etype, Hf.
    simpl. now rewrite Hfunc, Hkw.
  - injection E as <- <-.
    assert (Etype : get_data_type key = None) by now apply Hnone.
    rewrite Etype, app_nil_r. split; [assumption|]. split; assumption.
Qed.

Lemma translate_calls_cons ius ous (item : string * string) (l : dict string) :
  translate_calls ius ous (item :: l) =
  (translate_calls ius ous [item] ++ translate_calls ius ous l)%list.
Proof. unfold translate_calls. cbn [flat_map]. now rewrite app_nil_r. Qed.

Lemma translate_loop_calls (l : dict string) :
  forall (acc : dict Any) self (t : dict Any) self',
  cache_ok self ->
  for_each translate_item acc l self = Ok t self' ->
  calls (events self') =
    (calls (events self) ++
     translate_calls (_input_unit_system self) (_output_unit_system self) l)%list.
Proof.
  induction l as [|item l IH]; intros acc self t self' Hok E.
  - injection E as <- <-. unfold translate_calls. simpl. now rewrite app_nil_r.
  - cbn [for_each] in E. apply bind_Ok in E as (acc1 & self1 & Hitem & E).
    apply translate_item_calls in Hitem
      as (Hok1 & (Eius & Eous & _) & Hcalls1); [|assumption].
    apply IH in E; [|assumption].
    rewrite E, Hcalls1, Eius, Eous, (translate_calls_cons _ _ item l), app_assoc.
    reflexivity.
Qed.

(** X11.  The calls of the first loop.  When the first loop is done, the
    calculators have been called once for each entry of the payload whose
    key is not ignored and resolves to a data type, in payload order:
    the registered calculator of that data type, bound to the unit
    systems of the session, on the coerced value as its one positional
    argument; no call was made for an ignored key or for a key that does
    not resolve. *)
Theorem first_loop_calls (payload : dict string) (ius ous : string) :
  exists t self1,
    translate (init payload ius ous) = Ok t self1 /\
    calls (events self1) = translate_calls ius ous payload /\
    List.length (calls (events self1)) =
      List.length
        (filter (fun k => match get_data_type k with
                          | Some _ => true
                          | None => false
                          end) (kept payload)).
Proof.
  destruct (translate_returns payload ius ous) as (self1 & Ht & _).
  exists (translated_from ius ous [] payload), self1.
  split; [assumption|].
  assert (Hcalls : calls (events self1) = translate_calls ius ous payload).
  { unfold translate, bind, gets in Ht.
    apply translate_loop_calls in Ht; [|apply cache_ok_init].
    exact Ht. }
  split; [assumption|]. rewrite Hcalls. clear.
  induction payload as [|[key value] payload IH]; [reflexivity|].
  rewrite (translate_calls_cons _ _ (key, value) payload), length_app, IH,
    kept_cons.
  unfold translate_calls. cbn [flat_map fst snd]. rewrite app_nil_r.
  destruct (ignored key); [reflexivity|]. cbn [filter].
  destruct (get_data_type key) as [data_type|] eqn:E; [|reflexivity].
  destruct (registered_calculator data_type) as [_ [f Hf]];
    [now apply (get_data_type_registered key)|].
  now rewrite Hf.
Qed.

(** *** What is stored under a name *)

(** X12.  The conversion of an entry.  Whenever [generate_data] returns:
    for an entry whose key is not ignored and resolves to a data type, if
    no later raw key is stored under the normalized key and the
    normalized key is none of the four derived metrics, the output holds
    under [de_unit_key] of the key the value of the data type's
    registered calculator, bound to the unit systems of the session, on
    the coerced raw value. *)
Theorem converted_value (payload : dict string) (ius ous : string)
    (before : dict string) (key value : string) (after : dict string)
    (data_type : string) (out : dict Any) self2 :
  payload = (before ++ (key, value) :: after)%list ->
  ignored key = false ->
  get_data_type key = Some data_type ->
  (forall raw, In raw (kept after) -> translated_key raw <> de_unit_key key) ->
  ~ In (de_unit_key key) (map fst DERIVED_METRICS) ->
  run payload ius ous = Ok out self2 ->
  exists f,
    dict_get data_type CALCULATOR_FUNCTION_MAP = Some f /\
    dict_get (de_unit_key key) out =
      Some (call f (bound_keywords f ius ous) [coerce value]).
Proof.
  intros -> Hkey Etype Hafter Htarget Hrun.
  destruct (registered_calculator data_type) as [_ [f Hf]];
    [now apply (get_data_type_registered key)|].
  exists f. split; [assumption|].
  apply run_derive in Hrun as (_ & calc & _ & -> & Hnd & Hother & _).
  rewrite dict_get_merge by assumption. rewrite (Hother _ Htarget).
  rewrite translated_from_app, translated_from_cons, Hkey.
  assert (Ekey : translated_key key = de_unit_key key)
    by (unfold translated_key; now rewrite Etype).
  rewrite translated_from_get_other by assumption.
  rewrite Ekey, dict_get_set_eq. unfold translated_value.
  now rewrite Etype, Hf.
Qed.

(** A raw key is stored under its own name, or it resolves and is stored
    under its name less a suffix. *)
Lemma stored_under (raw k : string) :
  translated_key raw = k ->
  raw = k \/
  (get_data_type raw <> None /\
   (raw = k ++ "f" \/ raw = k ++ "in" \/ raw = k ++ "mph")).
Proof.
  unfold translated_key. destruct (get_data_type raw) eqn:E.
  - intros <-. destruct (de_unit_key_inv raw) as [H | H]; [now left|].
    right. split; [discriminate | exact H].
  - now left.
Qed.

Lemma tempf_stored (payload : dict string) ius ous :
  In DATA_POINT_TEMPF (dict_keys (translated_from ius ous [] payload)) ->
  exists suffix,
    In suffix ["f"; "in"; "mph"] /\
    In (DATA_POINT_TEMPF ++ suffix) (dict_keys payload).
Proof.
  intros Hin. apply translated_from_keys in Hin as [[] | (raw & Hraw & E)].
  apply kept_In in Hraw as [Hraw _].
  pose proof E as E'. apply stored_under in E' as [-> | [_ H]].
  - discriminate E.
  - destruct H as [-> | [-> | ->]].
    + exists "f". split; [simpl; tauto | assumption].
    + exists "in". split; [simpl; tauto | assumption].
    + exists "mph". split; [simpl; tauto | assumption].
Qed.

Lemma closed_gates_loop (t : dict Any) (specs : list (string * list string))
    (acc : dict Any) self :
  (forall item, In item specs -> gate t (snd item) = false) ->
  for_each (derive_item t) acc specs self = Ok acc self.
Proof.
  induction specs as [|[target input_keys] specs IH]; intros Hclosed;
    [reflexivity|].
  cbn [for_each]. unfold bind, derive_item at 1. fold (gate t input_keys).
  pose proof (Hclosed (target, input_keys) (or_introl eq_refl)) as Hgate.
  cbn [snd] in Hgate. rewrite Hgate.
  cbn [negb ret]. apply IH. intros item Hin. apply Hclosed. now right.
Qed.

(** X13.  No derived metric without an odd key.  Every derived metric
    takes [tempf] as an input key, and [tempf] is a key of the translated
    mapping only when the payload holds [tempff], [tempfin] or [tempfmph]
    (the raw key [tempf] itself is stored under [temp]).  So on a payload
    with none of these three keys [generate_data] returns, the second
    loop does nothing at all, and the output is the translated mapping. *)
Theorem no_derived_without_odd_key (payload : dict string) (ius ous : string) :
  (forall suffix, In suffix ["f"; "in"; "mph"] ->
     ~ In (DATA_POINT_TEMPF ++ suffix) (dict_keys payload)) ->
  exists t self1,
    translate (init payload ius ous) = Ok t self1 /\
    run payload ius ous = Ok t self1 /\
    forall item, In item DERIVED_METRICS -> gate t (snd item) = false.
Proof.
  intros Hodd.
  destruct (run_cases payload ius ous) as (self1 & Ht & _ & _ & Hrun).
  exists (translated_from ius ous [] payload), self1.
  split; [assumption|].
  assert (Hclosed : forall item, In item DERIVED_METRICS ->
            gate (translated_from ius ous [] payload) (snd item) = false).
  { intros item Hin. apply gate_closed. exists DATA_POINT_TEMPF. split.
    - simpl in Hin.
      repeat (destruct Hin as [<- | Hin]; [now left|]). destruct Hin.
    - intros Hstored. apply tempf_stored in Hstored as (suffix & Hs & Hk).
      exact (Hodd suffix Hs Hk). }
  split; [|assumption].
  rewrite Hrun. unfold derive. now rewrite closed_gates_loop.
Qed.

(** X14.  The exceptions.  [generate_data] raises nothing but
    [KeyError] for [tempf] or for [windspeedmph], and only on a payload
    that lacks that key and holds it with [f], [in] or [mph] appended:
    [humidity] is a translated key only when it is a raw key. *)
Theorem only_two_key_errors (payload : dict string) (ius ous : string) (e : exn) :
  raised (run payload ius ous) = Some e ->
  exists k suffix,
    (k = DATA_POINT_TEMPF \/ k = DATA_POINT_WINDSPEEDMPH) /\
    e = KeyError k /\
    ~ In k (dict_keys payload) /\
    In suffix ["f"; "in"; "mph"] /\
    In (k ++ suffix) (dict_keys payload).
Proof.
  intros He.
  destruct (run_cases payload ius ous) as (self1 & _ & Hok & Hcfg & Hrun).
  rewrite Hrun in He.
  destruct (derive (translated_from ius ous [] payload) self1)
    as [calc self2|e' self2] eqn:Hderive; [discriminate|].
  injection He as ->.
  apply derive_loop_Raise in Hderive
    as (done & item & rest & cs & Especs & Hgate & (k & Hk & Hnone & ->) & _);
    [| assumption | apply derived_metrics_registered].
  destruct Hcfg as (_ & _ & Epayload & _). cbn [init _payload] in Epayload.
  rewrite Epayload in Hnone. apply dict_get_None in Hnone.
  assert (Hitem : In item DERIVED_METRICS) by (rewrite Especs; apply in_elt).
  pose proof (proj1 (gate_spec _ _) Hgate k Hk) as Hstored.
  apply translated_from_keys in Hstored as [[] | (raw & Hraw & E)].
  apply kept_In in Hraw as [Hraw _].
  apply stored_under in E as [-> | [Hres H]]; [contradiction|].
  assert (Hcases : k = DATA_POINT_TEMPF \/ k = DATA_POINT_HUMIDITY \/
                   k = DATA_POINT_WINDSPEEDMPH).
  { simpl in Hitem.
    repeat (destruct Hitem as [<- | Hitem];
            [simpl in Hk; intuition congruence|]).
    destruct Hitem. }
  assert (Hsuffix : exists suffix,
            In suffix ["f"; "in"; "mph"] /\ raw = k ++ suffix).
  { destruct H as [-> | [-> | ->]];
      [exists "f" | exists "in" | exists "mph"]; (split; [simpl; tauto | reflexivity]). }
  destruct Hsuffix as (suffix & Hs & ->).
  exists k, suffix.
  destruct Hcases as [-> | [-> | ->]].
  - split; [now left|]. now repeat split.
  - exfalso. apply Hres. simpl in Hs.
    destruct Hs as [<- | [<- | [<- | []]]]; reflexivity.
  - split; [now right|]. now repeat split.
Qed.

(** *** The keyword arguments *)

Lemma bound_keywords_spec (f : calculator) (ius ous : string) :
  dict_get "input_unit_system" (bound_keywords f ius ous) =
    (if list_mem "input_unit_system" (signature_parameters f)
     then Some ius else None) /\
  dict_get "output_unit_system" (bound_keywords f ius ous) =
    (if list_mem "output_unit_system" (signature_parameters f)
     then Some ous else None) /\
  forall k, In k (dict_keys (bound_keywords f ius ous)) ->
    k = "input_unit_system" \/ k = "output_unit_system".
Proof.
  unfold bound_keywords. cbv zeta.
  destruct (list_mem "input_unit_system" (signature_parameters f));
    destruct (list_mem "output_unit_system" (signature_parameters f));
    (split; [reflexivity|]; split; [reflexivity|]);
    intros k Hk; simpl in Hk; intuition congruence.
Qed.

(** X15.  The calculator a request yields is bound to the unit systems
    its signature declares and to nothing else: its keywords hold the
    input unit system of the session exactly when the signature has a
    parameter [input_unit_system], the output unit system exactly when it
    has a parameter [output_unit_system], and no other keyword, for a
    binding made by the request as for one taken from the cache. *)
Theorem bound_only_declared (key : string) self (p : partial) self' :
  session self ->
  _get_calculator_func key self = Ok (Some p) self' ->
  dict_get "input_unit_system" (keywords p) =
    (if list_mem "input_unit_system" (signature_parameters (func p))
     then Some (_input_unit_system self) else None) /\
  dict_get "output_unit_system" (keywords p) =
    (if list_mem "output_unit_system" (signature_parameters (func p))
     then Some (_output_unit_system self) else None) /\
  forall k, In k (dict_keys (keywords p)) ->
    k = "input_unit_system" \/ k = "output_unit_system".
Proof.
  intros Hs Hrun. pose proof (session_cache_ok self Hs) as Hok.
  destruct (request_returns key self)
    as (r & self1 & Hrun' & _ & _ & _ & _ & Hbound).
  rewrite Hrun in Hrun'. injection Hrun' as <- <-.
  destruct (Hbound Hok) as [_ Hp].
  destruct (Hp p eq_refl) as (data_type & f & _ & _ & <- & ->).
  apply bound_keywords_spec.
Qed.

(** *** The metrics that come together *)

(** X16.  The derived metrics come in four combinations only.  The dew
    point and the heat index have the same input keys, and the
    feels-like temperature has those of all the others together; so the
    metrics whose input keys are all keys of a translated mapping are
    none, or the dew point and the heat index, or the wind chill alone,
    or all four. *)
Theorem derived_metric_combinations (t : dict Any) :
  let opened := filter (fun item => gate t (snd item)) DERIVED_METRICS in
  opened = [] \/
  opened = [(DATA_POINT_DEWPOINT, DEW_POINT_KEYS);
            (DATA_POINT_HEATINDEX, HEAT_INDEX_KEYS)] \/
  opened = [(DATA_POINT_WINDCHILL, WIND_CHILL_KEYS)] \/
  opened = DERIVED_METRICS.
Proof.
  cbv zeta. unfold DERIVED_METRICS, gate. cbn [filter snd forallb
    DEW_POINT_KEYS FEELS_LIKE_KEYS HEAT_INDEX_KEYS WIND_CHILL_KEYS].
  destruct (dict_mem DATA_POINT_TEMPF t);
    destruct (dict_mem DATA_POINT_HUMIDITY t);
    destruct (dict_mem DATA_POINT_WINDSPEEDMPH t); cbn; tauto.
Qed.

End OutcomeFacts.

(** X4 at [uv], a key of the stations. *)
Lemma short_key_unresolved_witness :
  String.length "uv" < 4 /\ get_data_type "uv" = None.
Proof.
  assert (H : String.length "uv" < 4) by (simpl; lia).
  split; [exact H | exact (short_key_unresolved "uv" H)].
Defined.

(** ** Closed instances of the further properties *)

(** X7 at a session just made, on a payload whose run computes the dew
    point and the heat index. *)
Lemma generate_data_again_witness :
  let self :=
    init [("tempf", "77"); ("tempff", "70"); ("humidity", "50")]
      UNIT_SYSTEM_IMPERIAL UNIT_SYSTEM_IMPERIAL in
  session self /\
  outcome (generate_data (state_of (generate_data self))) =
    outcome (generate_data self).
Proof.
  intros self.
  assert (Hs : session self) by apply session_init.
  split; [exact Hs|]. exact (generate_data_again self Hs).
Defined.

(** X10 at a payload with an ignored key, two keys stored under one name
    and the inputs of the dew point and the heat index. *)
Lemma output_key_order_witness :
  let payload :=
    [("dateutc", "now"); ("tempinf", "68"); ("tempf", "77"); ("tempff", "70");
     ("humidity", "50"); ("tempin", "20")] in
  exists t self1 out self2,
    translate (init payload UNIT_SYSTEM_IMPERIAL UNIT_SYSTEM_IMPERIAL) =
      Ok t self1 /\
    run payload UNIT_SYSTEM_IMPERIAL UNIT_SYSTEM_IMPERIAL = Ok out self2 /\
    dict_keys t = ["tempin"; "temp"; "tempf"; "humidity"] /\
    dict_keys out =
      ["tempin"; "temp"; "tempf"; "humidity"; "dewpoint"; "heatindex"].
Proof.
  intros payload.
  destruct (translate_returns payload UNIT_SYSTEM_IMPERIAL UNIT_SYSTEM_IMPERIAL)
    as (self1 & Ht & _).
  destruct (returns_Ok (run payload UNIT_SYSTEM_IMPERIAL UNIT_SYSTEM_IMPERIAL))
    as (out & self2 & Hrun); [vm_compute; reflexivity|].
  exists (translated_from UNIT_SYSTEM_IMPERIAL UNIT_SYSTEM_IMPERIAL [] payload),
    self1, out, self2.
  split; [exact Ht|]. split; [exact Hrun|].
  destruct (output_key_order payload UNIT_SYSTEM_IMPERIAL UNIT_SYSTEM_IMPERIAL
              _ _ _ _ Ht Hrun) as [Et Eout].
  split.
  - rewrite Et. vm_compute. reflexivity.
  - rewrite Eout. vm_compute. reflexivity.
Defined.

(** X12 at the key [tempf] of an ordinary payload: the output holds under
    [temp] what the temperature calculator returns for the parsed
    reading. *)
Lemma converted_value_witness :
  let payload := [("PASSKEY", "AB"); ("tempf", "77.4"); ("humidity", "54")] in
  exists out self2 f,
    run payload UNIT_SYSTEM_IMPERIAL UNIT_SYSTEM_IMPERIAL = Ok out self2 /\
    get_data_type "tempf" = Some DATA_POINT_GLOB_TEMP /\
    dict_get DATA_POINT_GLOB_TEMP CALCULATOR_FUNCTION_MAP = Some f /\
    dict_get "temp" out =
      Some (call f (bound_keywords f UNIT_SYSTEM_IMPERIAL UNIT_SYSTEM_IMPERIAL)
              [coerce "77.4"]).
Proof.
  intros payload.
  destruct (returns_Ok (run payload UNIT_SYSTEM_IMPERIAL UNIT_SYSTEM_IMPERIAL))
    as (out & self2 & Hrun); [vm_compute; reflexivity|].
  assert (Etype : get_data_type "tempf" = Some DATA_POINT_GLOB_TEMP)
    by (vm_compute; reflexivity).
  destruct (converted_value payload UNIT_SYSTEM_IMPERIAL UNIT_SYSTEM_IMPERIAL
              [("PASSKEY", "AB")] "tempf" "77.4" [("humidity", "54")]
              DATA_POINT_GLOB_TEMP out self2) as (f & Hf & Hout).
  - reflexivity.
  - vm_compute. reflexivity.
  - exact Etype.
  - intros raw [<- | []]. vm_compute. discriminate.
  - vm_compute. intuition discriminate.
  - exact Hrun.
  - exists out, self2, f. split; [exact Hrun|]. split; [exact Etype|].
    split; [exact Hf | exact Hout].
Defined.

(** X13 at a station's ordinary payload, with the temperature, the
    humidity and the wind speed: the run returns the translated mapping,
    whose keys are [temp], [humidity] and [windspeed]. *)
Lemma no_derived_without_odd_key_witness :
  let payload :=
    [("PASSKEY", "AB"); ("tempf", "77.4"); ("humidity", "54");
     ("windspeedmph", "4.0")] in
  exists t self1,
    translate (init payload UNIT_SYSTEM_IMPERIAL UNIT_SYSTEM_IMPERIAL) =
      Ok t self1 /\
    run payload UNIT_SYSTEM_IMPERIAL UNIT_SYSTEM_IMPERIAL = Ok t self1 /\
    forall item, In item DERIVED_METRICS -> gate t (snd item) = false.
Proof.
  intros payload.
  apply (no_derived_without_odd_key payload UNIT_SYSTEM_IMPERIAL
           UNIT_SYSTEM_IMPERIAL).
  intros suffix [<- | [<- | [<- | []]]]; vm_compute; intuition discriminate.
Defined.

(** X14 at a payload that holds [tempff] and no [tempf]. *)
Lemma only_two_key_errors_witness :
  let payload := [("tempff", "70"); ("humidity", "50")] in
  raised (run payload UNIT_SYSTEM_IMPERIAL UNIT_SYSTEM_IMPERIAL) =
    Some (KeyError "tempf") /\
  exists k suffix,
    (k = DATA_POINT_TEMPF \/ k = DATA_POINT_WINDSPEEDMPH) /\
    KeyError "tempf" = KeyError k /\
    ~ In k (dict_keys payload) /\
    In suffix ["f"; "in"; "mph"] /\
    In (k ++ suffix) (dict_keys payload).
Proof.
  intros payload.
  assert (He : raised (run payload UNIT_SYSTEM_IMPERIAL UNIT_SYSTEM_IMPERIAL) =
               Some (KeyError "tempf")) by (vm_compute; reflexivity).
  split; [exact He|].
  exact (only_two_key_errors payload UNIT_SYSTEM_IMPERIAL UNIT_SYSTEM_IMPERIAL
           (KeyError "tempf") He).
Defined.

(** X15 at the first request of a session, for [tempf]. *)
Lemma bound_only_declared_witness :
  let self := init [] "metric" UNIT_SYSTEM_IMPERIAL in
  exists p self',
    session self /\
    _get_calculator_func "tempf" self = Ok (Some p) self' /\
    dict_get "input_unit_system" (keywords p) =
      (if list_mem "input_unit_system" (signature_parameters (func p))
       then Some "metric" else None) /\
    dict_get "output_unit_system" (keywords p) =
      (if list_mem "output_unit_system" (signature_parameters (func p))
       then Some UNIT_SYSTEM_IMPERIAL else None).
Proof.
  intros self.
  assert (Hs : session self) by apply session_init.
  destruct (request_returns "tempf" self) as (r & self' & Hrun & Hnone & _).
  destruct r as [p|].
  - exists p, self'. split; [exact Hs|]. split; [exact Hrun|].
    destruct (bound_only_declared "tempf" self p self' Hs Hrun)
      as (Hin & Hout & _).
    split; [exact Hin | exact Hout].
  - exfalso. destruct Hnone as [Hnone _].
    pose proof (Hnone eq_refl) as E. vm_compute in E. discriminate E.
Defined.
